(** * Resource records of the agent: a shallow embedding of
      [ai/backend/agent/resources.py]

    Python values are modelled as follows.
    - [str] is a list of 8-bit characters ([list ascii]); case mapping and
      whitespace are the ASCII ones.
    - [dict] is an association list in insertion order ([dict_set] updates an
      existing key in place and appends a new one, as Python does).
    - exceptions are the [Raise] branch of [result].
    - [int] is [Z]. *)

From Stdlib Require Import String Ascii List ZArith Lia Bool.
From Stdlib Require Import Sorted Permutation.
Import ListNotations.
Local Open Scope Z_scope.

(** ** Strings *)

Definition str := list ascii.

Notation "! s" := (list_ascii_of_string s) (at level 1, format "! s").

Definition str_eqb (a b : str) : bool :=
  if list_eq_dec ascii_dec a b then true else false.

(** [c in s] for a one-character [c]. *)
Definition contains (c : ascii) (s : str) : bool := existsb (Ascii.eqb c) s.

(** ** Exceptions *)

Inductive exn : Type :=
| KeyError (key : str)
| ValueError (msg : str)
| InvalidOperation
| OverflowError.

Inductive result (A : Type) : Type :=
| Ok (a : A)
| Raise (e : exn).
Arguments Ok {A} a.
Arguments Raise {A} e.

Definition bind {A B : Type} (m : result A) (f : A -> result B) : result B :=
  match m with
  | Ok a => f a
  | Raise e => Raise e
  end.

Notation "x <- m ;; k" := (bind m (fun x => k))
  (at level 61, m at next level, right associativity).

Definition raises_ValueError {A : Type} (r : result A) : Prop :=
  exists msg, r = Raise (ValueError msg).

Definition raises {A : Type} (r : result A) : Prop :=
  exists e, r = Raise e.

(** ** bitmask2set *)

(** The [while mask > 0] loop; [fuel] bounds the number of tests of the
    loop condition, and [None] means the bound was too small. *)
Fixpoint bitmask2set_loop (fuel : nat) (mask bpos : Z) (bset : list Z)
  : option (list Z) :=
  match fuel with
  | O => None
  | S fuel' =>
      if mask >? 0 then
        let bset' := if Z.land mask 1 =? 1 then bset ++ [bpos] else bset in
        bitmask2set_loop fuel' (Z.shiftr mask 1) (bpos + 1) bset'
      else Some bset
  end.

(** The frozenset is represented by the list of its elements, read through
    [In]. *)
Definition bitmask2set (mask : Z) : option (list Z) :=
  bitmask2set_loop (S (Z.to_nat (Z.log2 mask + 1))) mask 0 [].

(** ** ComputePluginContext.discover_plugins *)

Section Plugins.
Variable PluginClass : Type.

Definition accel_lt_intrinsic (item : str * PluginClass) : Z :=
  if str_eqb (fst item) !"cpu" || str_eqb (fst item) !"mem" then 0 else -1.

(** [list.sort(key=...)] is a stable sort: an element is placed before the
    first later element whose key is not smaller. *)
Fixpoint sort_insert {A : Type} (key : A -> Z) (x : A) (l : list A) : list A :=
  match l with
  | [] => [x]
  | y :: l' => if key x <=? key y then x :: l else y :: sort_insert key x l'
  end.

Fixpoint list_sort {A : Type} (key : A -> Z) (l : list A) : list A :=
  match l with
  | [] => []
  | x :: l' => sort_insert key x (list_sort key l')
  end.

(** [scanned] is what [super().discover_plugins(plugin_group, blocklist)]
    yields. *)
Definition discover_plugins (scanned : list (str * PluginClass))
  : list (str * PluginClass) :=
  list_sort accel_lt_intrinsic scanned.

Definition intrinsic (item : str * PluginClass) : bool :=
  str_eqb (fst item) !"cpu" || str_eqb (fst item) !"mem".

Definition accelerator (item : str * PluginClass) : bool :=
  negb (intrinsic item).
End Plugins.

Arguments accel_lt_intrinsic {PluginClass} item.
Arguments discover_plugins {PluginClass} scanned.
Arguments intrinsic {PluginClass} item.
Arguments accelerator {PluginClass} item.

(** ** Python string methods *)

(** [s.split(c)] for a one-character separator: never empty. *)
Fixpoint split (c : ascii) (s : str) : list str :=
  match s with
  | [] => [[]]
  | x :: s' =>
      if Ascii.eqb x c then [] :: split c s'
      else match split c s' with
           | h :: t => (x :: h) :: t
           | [] => [[x]]
           end
  end.

(** [s.partition(c)]: the part before the first [c], whether [c] was found,
    and the part after it. *)
Fixpoint partition (c : ascii) (s : str) : str * bool * str :=
  match s with
  | [] => ([], false, [])
  | x :: s' =>
      if Ascii.eqb x c then ([], true, s')
      else let '(b, f, a) := partition c s' in (x :: b, f, a)
  end.

(** [sep.join(l)]. *)
Fixpoint join (sep : str) (l : list str) : str :=
  match l with
  | [] => []
  | [x] => x
  | x :: l' => x ++ sep ++ join sep l'
  end.

(** Characters are the code points below 256.  Whitespace as [str.strip()]
    sees it there: TAB, LF, VT, FF, CR, FS, GS, RS, US, the space, the next
    line control U+0085 and the no-break space U+00A0. *)
Definition is_space (c : ascii) : bool :=
  let n := nat_of_ascii c in
  ((9 <=? n) && (n <=? 13) || (28 <=? n) && (n <=? 32)
   || (n =? 133) || (n =? 160))%nat.

Fixpoint lstrip (s : str) : str :=
  match s with
  | [] => []
  | x :: s' => if is_space x then lstrip s' else s
  end.

Definition rstrip (s : str) : str := rev (lstrip (rev s)).

Definition strip (s : str) : str := rstrip (lstrip s).

(** The upper-case letters below 256: A to Z, and U+00C0 to U+00DE without
    the multiplication sign U+00D7. *)
Definition is_upper (c : ascii) : bool :=
  let n := nat_of_ascii c in
  ((65 <=? n) && (n <=? 90)
   || (192 <=? n) && (n <=? 222) && negb (n =? 215))%nat.

(** [str.upper()] on one character: a to z and U+00E0 to U+00FE (without the
    division sign U+00F7) move down by 32, and the sharp s U+00DF becomes
    [SS].  The upper-case forms of the micro sign U+00B5 and of U+00FF lie
    above 255; these two characters are kept, so [upper] is [str.upper()] on
    the strings without them, the ASCII strings among them. *)
Definition to_upper (c : ascii) : str :=
  let n := nat_of_ascii c in
  if ((97 <=? n) && (n <=? 122))%nat then [ascii_of_nat (n - 32)]
  else if (n =? 223)%nat then !"SS"
  else if ((224 <=? n) && (n <=? 254) && negb (n =? 247))%nat
       then [ascii_of_nat (n - 32)]
  else [c].

(** [str.lower()] on one character: the upper-case letters move up by 32. *)
Definition to_lower (c : ascii) : ascii :=
  if is_upper c then ascii_of_nat (nat_of_ascii c + 32) else c.

Definition upper (s : str) : str := flat_map to_upper s.
Definition lower (s : str) : str := map to_lower s.

(** [s.isascii()]. *)
Definition is_ascii (s : str) : bool :=
  forallb (fun c => (nat_of_ascii c <? 128)%nat) s.

Definition endswith (s suffix : str) : bool :=
  (length suffix <=? length s)%nat
  && str_eqb (skipn (length s - length suffix) s) suffix.

Definition startswith (s prefix : str) : bool :=
  str_eqb (firstn (length prefix) s) prefix.

(** [s[:-n]] for [n > 0]. *)
Definition drop_last (n : nat) (s : str) : str := firstn (length s - n) s.

(** ** Python dicts *)

Definition dict (V : Type) := list (str * V).

Fixpoint dict_get {V : Type} (k : str) (d : dict V) : option V :=
  match d with
  | [] => None
  | (k', v) :: d' => if str_eqb k k' then Some v else dict_get k d'
  end.

(** [d[k] = v]. *)
Fixpoint dict_set {V : Type} (d : dict V) (k : str) (v : V) : dict V :=
  match d with
  | [] => [(k, v)]
  | (k', v') :: d' =>
      if str_eqb k k' then (k', v) :: d' else (k', v') :: dict_set d' k v
  end.

Definition keys {V : Type} (d : dict V) : list str := map fst d.

(** [d[k]], raising [KeyError]. *)
Definition dict_item {V : Type} (d : dict V) (k : str) : result V :=
  match dict_get k d with
  | Some v => Ok v
  | None => Raise (KeyError k)
  end.

(** [d1 == d2] for dicts whose values are compared by [R]. *)
Definition dict_eq {V : Type} (R : V -> V -> Prop) (d1 d2 : dict V) : Prop :=
  forall k,
    match dict_get k d1, dict_get k d2 with
    | Some a, Some b => R a b
    | None, None => True
    | _, _ => False
    end.

(** ** pathlib.Path (POSIX flavour) *)

(** A parsed path: the root (empty, ["/"] or ["//"]) and the segments after
    it.  Empty segments and ["."] segments are dropped when parsing. *)
Record Path : Type := mkPath { root : str; tail : list str }.

Definition path_root (s : str) : str :=
  match s with
  | "/"%char :: "/"%char :: "/"%char :: _ => !"/"
  | "/"%char :: "/"%char :: _ => !"//"
  | "/"%char :: _ => !"/"
  | _ => []
  end.

Definition keep_segment (x : str) : bool :=
  negb (str_eqb x []) && negb (str_eqb x !".").

(** [Path(s)]. *)
Definition Path_of_str (s : str) : Path :=
  mkPath (path_root s) (filter keep_segment (split "/" s)).

Definition is_absolute (p : Path) : bool := negb (str_eqb (root p) []).

(** [p.parts]: the anchor, when there is one, counts as a part. *)
Definition parts (p : Path) : list str :=
  if is_absolute p then root p :: tail p else tail p.

(** [str(p)]. *)
Definition Path_str (p : Path) : str :=
  match root p, tail p with
  | [], [] => !"."
  | r, t => r ++ join !"/" t
  end.

(** ** Mount *)

(** Modelled from the spec: [MountTypes] is declared in
    [ai.backend.common.types]; the spec names the members BIND and VOLUME. *)
Inductive MountTypes : Type := BIND | VOLUME.

(** Modelled from the spec: [MountPermission] is declared in
    [ai.backend.common.types]; the spec names READ_ONLY (["ro"]) and
    READ_WRITE (["rw"]). *)
Inductive MountPermission : Type := READ_ONLY | READ_WRITE.

Definition MountPermission_value (p : MountPermission) : str :=
  match p with
  | READ_ONLY => !"ro"
  | READ_WRITE => !"rw"
  end.

(** [MountPermission(perm)]: lookup by value. *)
Definition MountPermission_of_value (perm : str) : result MountPermission :=
  if str_eqb perm !"ro" then Ok READ_ONLY
  else if str_eqb perm !"rw" then Ok READ_WRITE
  else Raise (ValueError (perm ++ !" is not a valid MountPermission")).

(** The [source] attribute holds a path, a volume name (a [str], as
    [from_str] stores it) or [None]. *)
Inductive MountSource : Type :=
| SourcePath (p : Path)
| SourceName (name : str)
| SourceNone.

Definition MountSource_str (s : MountSource) : str :=
  match s with
  | SourcePath p => Path_str p
  | SourceName name => name
  | SourceNone => !"None"
  end.

Record Mount : Type := mkMount {
  type : MountTypes;
  source : MountSource;
  target : Path;
  permission : MountPermission;
  opts : option (dict str)
}.

(** [Mount.__str__]. *)
Definition Mount_str (m : Mount) : str :=
  MountSource_str (source m) ++ !":" ++ Path_str (target m) ++ !":"
    ++ MountPermission_value (permission m).

(** [Mount.from_str]. *)
Definition Mount_from_str (s : str) : result Mount :=
  match split ":" s with
  | [source; target; perm] =>
      let source := Path_of_str source in
      st <- (if negb (is_absolute source) then
               if (length (parts source) =? 1)%nat
               then Ok (SourceName (Path_str source), VOLUME)
               else Raise (ValueError
                      !"Mount source must be an absolute path if it is not a volume name.")
             else Ok (SourcePath source, BIND)) ;;
      let target := Path_of_str target in
      if negb (is_absolute target) then
        Raise (ValueError !"Mount target must be an absolute path.")
      else
        perm <- MountPermission_of_value perm ;;
        Ok (mkMount (snd st) (fst st) target perm None)
  | _ => Raise (ValueError !"wrong number of values to unpack")
  end.

(** ** KernelResourceSpec *)

Definition NL : ascii := ascii_of_nat 10.

(** [known_slot_types.get(slot_name, 'count') == 'bytes']; the registry maps
    slot names to the value of their [SlotTypes] member. *)
Definition is_bytes (known_slot_types : dict str) (slot_name : str) : bool :=
  match dict_get slot_name known_slot_types with
  | Some t => str_eqb t !"bytes"
  | None => str_eqb !"count" !"bytes"
  end.

(** [slot_name.split('.')[0]]. *)
Definition first_segment (slot_name : str) : str :=
  match split "." slot_name with
  | h :: _ => h
  | [] => []
  end.

Definition family_prefix_ok (device_name slot_name : str) : bool :=
  startswith slot_name (device_name ++ !".") || str_eqb slot_name device_name.

(** What the module imports from outside: [decimal.Decimal], [BinarySize] of
    [ai.backend.common.types] and [json]. *)
Class Library : Type := {
  Decimal : Type;
  (** [f'{alloc}'] *)
  Decimal_str : Decimal -> str;
  (** [Decimal(raw_alloc)] *)
  Decimal_of_str : str -> result Decimal;
  (** [f'{BinarySize(alloc):s}'] *)
  BinarySize_format_s : Decimal -> str;
  (** [f'{BinarySize(size):m}'] *)
  BinarySize_format_m : Z -> str;
  (** [Decimal(BinarySize.from_str(raw_alloc))] *)
  BinarySize_from_str : str -> result Decimal;
  (** [BinarySize.finite_from_str(s)] *)
  BinarySize_finite_from_str : str -> result Z;
  (** [json.dumps] and [json.loads] on objects with string values. *)
  json_dumps : dict str -> str;
  json_loads : str -> result (dict str)
}.

Section Codec.
Context {L : Library}.

Record KernelResourceSpec : Type := mkSpec {
  container_id : str;
  slots : dict str;
  allocations : dict (dict (dict Decimal));
  scratch_disk_size : Z;
  mounts : list Mount
}.

(** *** write_to_string *)

Definition alloc_piece (kst : dict str) (slot_name : str)
           (item : str * Decimal) : str :=
  if is_bytes kst slot_name
  then fst item ++ !":" ++ BinarySize_format_s (snd item)
  else fst item ++ !":" ++ Decimal_str (snd item).

Definition shares_line (kst : dict str) (slot_name : str)
           (per_device_alloc : dict Decimal) : str :=
  upper slot_name ++ !"_SHARES="
    ++ join !"," (map (alloc_piece kst slot_name) per_device_alloc) ++ [NL].

(** The inner [for slot_name, per_device_alloc in slots.items()]. *)
Fixpoint write_slots (kst : dict str) (device_name : str)
         (slots : dict (dict Decimal)) (resource_str : str) : result str :=
  match slots with
  | [] => Ok resource_str
  | (slot_name, per_device_alloc) :: rest =>
      if negb (family_prefix_ok device_name slot_name) then
        Raise (ValueError (!"device_name (" ++ device_name
                             ++ !") must be a prefix of slot_name ("
                             ++ slot_name ++ !")"))
      else
        write_slots kst device_name rest
          (resource_str ++ shares_line kst slot_name per_device_alloc)
  end.

(** The outer [for device_name, slots in self.allocations.items()]. *)
Fixpoint write_allocations (kst : dict str)
         (allocs : dict (dict (dict Decimal))) (resource_str : str)
  : result str :=
  match allocs with
  | [] => Ok resource_str
  | (device_name, slots) :: rest =>
      resource_str' <- write_slots kst device_name slots resource_str ;;
      write_allocations kst rest resource_str'
  end.

Definition header (r : KernelResourceSpec) : str :=
  let mounts_str := join !"," (map Mount_str (mounts r)) in
  let slots_str := json_dumps (slots r) in
  !"CID=" ++ container_id r ++ [NL]
    ++ !"SCRATCH_SIZE=" ++ BinarySize_format_m (scratch_disk_size r) ++ [NL]
    ++ !"MOUNTS=" ++ mounts_str ++ [NL]
    ++ !"SLOTS=" ++ slots_str ++ [NL].

Definition write_to_string (kst : dict str) (r : KernelResourceSpec)
  : result str :=
  write_allocations kst (allocations r) (header r).

(** *** read_from_string *)

Definition parse_line (kvpairs : dict str) (line : str) : dict str :=
  if negb (contains "=" line) then kvpairs
  else let '(key, _, val) := partition "=" (strip line) in
       dict_set kvpairs key val.

Definition parse_kvpairs (text : str) : dict str :=
  fold_left parse_line (split NL text) [].

Definition warning (arg : str) : str :=
  !"A previously launched container has unknown slot type: " ++ arg
    ++ !". Ignoring it.".

(** The [for entry in val.split(',')] loop; the second component collects
    the warnings logged. *)
Fixpoint parse_entries (kst : dict str) (slot_name : str)
         (entries : list str) (per_device_alloc : dict Decimal)
         (log : list str) : result (dict Decimal * list str) :=
  match entries with
  | [] => Ok (per_device_alloc, log)
  | entry :: rest =>
      let '(raw_dev_id, _, raw_alloc) := partition ":" entry in
      match raw_dev_id, raw_alloc with
      | [], _ | _, [] => parse_entries kst slot_name rest per_device_alloc log
      | _, _ =>
          match (if is_bytes kst slot_name
                 then BinarySize_from_str raw_alloc
                 else Decimal_of_str raw_alloc) with
          | Ok alloc =>
              parse_entries kst slot_name rest
                (dict_set per_device_alloc raw_dev_id alloc) log
          | Raise (KeyError k) =>
              parse_entries kst slot_name rest per_device_alloc
                (log ++ [warning k])
          | Raise e => Raise e
          end
      end
  end.

(** [allocations[device_name][slot_name] = per_device_alloc] on the nested
    [defaultdict]. *)
Definition alloc_set (allocs : dict (dict (dict Decimal)))
           (device_name slot_name : str) (per_device_alloc : dict Decimal)
  : dict (dict (dict Decimal)) :=
  let inner := match dict_get device_name allocs with
               | Some d => d
               | None => []
               end in
  dict_set allocs device_name (dict_set inner slot_name per_device_alloc).

(** The [for key, val in kvpairs.items()] loop. *)
Fixpoint parse_allocations (kst : dict str) (items : list (str * str))
         (allocs : dict (dict (dict Decimal))) (log : list str)
  : result (dict (dict (dict Decimal)) * list str) :=
  match items with
  | [] => Ok (allocs, log)
  | (key, val) :: rest =>
      if endswith key !"_SHARES" then
        let slot_name := lower (drop_last 7 key) in
        let device_name := first_segment slot_name in
        res <- parse_entries kst slot_name (split "," val) [] log ;;
        parse_allocations kst rest
          (alloc_set allocs device_name slot_name (fst res)) (snd res)
      else parse_allocations kst rest allocs log
  end.

(** [[Mount.from_str(m) for m in ... if m]]. *)
Fixpoint parse_mounts (l : list str) : result (list Mount) :=
  match l with
  | [] => Ok []
  | m :: rest =>
      if str_eqb m [] then parse_mounts rest
      else x <- Mount_from_str m ;;
           xs <- parse_mounts rest ;;
           Ok (x :: xs)
  end.

Definition read_from_kvpairs (kst : dict str) (kvpairs : dict str)
  : result (KernelResourceSpec * list str) :=
  al <- parse_allocations kst kvpairs [] [] ;;
  raw_mounts <- dict_item kvpairs !"MOUNTS" ;;
  mounts <- parse_mounts (split "," raw_mounts) ;;
  let container_id := match dict_get !"CID" kvpairs with
                      | Some c => c
                      | None => !"unknown"
                      end in
  raw_size <- dict_item kvpairs !"SCRATCH_SIZE" ;;
  scratch_disk_size <- BinarySize_finite_from_str raw_size ;;
  raw_slots <- dict_item kvpairs !"SLOTS" ;;
  slots <- json_loads raw_slots ;;
  Ok (mkSpec container_id slots (fst al) scratch_disk_size mounts, snd al).

(** [read_from_string] together with the warnings it logs. *)
Definition read_from_string_log (kst : dict str) (text : str)
  : result (KernelResourceSpec * list str) :=
  read_from_kvpairs kst (parse_kvpairs text).

Definition read_from_string (kst : dict str) (text : str)
  : result KernelResourceSpec :=
  res <- read_from_string_log kst text ;; Ok (fst res).

(** [r1 == r2]: attribute-wise, dicts compared as mappings. *)
Definition spec_eq (r1 r2 : KernelResourceSpec) : Prop :=
  container_id r1 = container_id r2
  /\ dict_eq eq (slots r1) (slots r2)
  /\ dict_eq (dict_eq (dict_eq eq)) (allocations r1) (allocations r2)
  /\ scratch_disk_size r1 = scratch_disk_size r2
  /\ mounts r1 = mounts r2.


(** *** The text that [write_to_string] builds, as key-value pairs *)

Definition render (kv : str * str) : str :=
  fst kv ++ !"=" ++ snd kv ++ [NL].

Definition header_kvs (r : KernelResourceSpec) : list (str * str) :=
  [(!"CID", container_id r);
   (!"SCRATCH_SIZE", BinarySize_format_m (scratch_disk_size r));
   (!"MOUNTS", join !"," (map Mount_str (mounts r)));
   (!"SLOTS", json_dumps (slots r))].

Definition shares_kv (kst : dict str) (sp : str * dict Decimal) : str * str :=
  (upper (fst sp) ++ !"_SHARES",
   join !"," (map (alloc_piece kst (fst sp)) (snd sp))).

Definition shares_kvs (kst : dict str) (allocs : dict (dict (dict Decimal)))
  : list (str * str) :=
  flat_map (fun dsl => map (shares_kv kst) (snd dsl)) allocs.

(** *** Records that survive the text form *)

(** A value that a line keeps: no line break, no trailing whitespace. *)
Definition clean (v : str) : Prop :=
  contains NL v = false /\ rstrip v = v.

(** A key-value pair that its line gives back. *)
Definition line_ok (kv : str * str) : Prop :=
  fst kv <> []
  /\ lstrip (fst kv) = fst kv
  /\ contains "=" (fst kv) = false
  /\ contains NL (fst kv) = false
  /\ clean (snd kv).

Definition slot_name_ok (slot_name : str) : Prop :=
  lower slot_name = slot_name
  /\ contains "=" slot_name = false
  /\ contains NL slot_name = false
  /\ lstrip slot_name = slot_name
  /\ is_ascii slot_name = true.

(** The amount as [write_to_string] renders it and [read_from_string]
    reads it. *)
Definition format_alloc (kst : dict str) (slot_name : str) (alloc : Decimal)
  : str :=
  if is_bytes kst slot_name then BinarySize_format_s alloc
  else Decimal_str alloc.

Definition parse_alloc (kst : dict str) (slot_name : str) (raw_alloc : str)
  : result Decimal :=
  if is_bytes kst slot_name then BinarySize_from_str raw_alloc
  else Decimal_of_str raw_alloc.

Definition entry_ok (kst : dict str) (slot_name : str)
           (item : str * Decimal) : Prop :=
  fst item <> []
  /\ contains "," (fst item) = false
  /\ contains ":" (fst item) = false
  /\ contains NL (fst item) = false
  /\ format_alloc kst slot_name (snd item) <> []
  /\ contains "," (format_alloc kst slot_name (snd item)) = false
  /\ clean (format_alloc kst slot_name (snd item))
  /\ parse_alloc kst slot_name (format_alloc kst slot_name (snd item))
     = Ok (snd item).

Definition slot_ok (kst : dict str) (device_name : str)
           (sp : str * dict Decimal) : Prop :=
  family_prefix_ok device_name (fst sp) = true
  /\ slot_name_ok (fst sp)
  /\ NoDup (keys (snd sp))
  /\ Forall (entry_ok kst (fst sp)) (snd sp).

Definition device_ok (kst : dict str) (dsl : str * dict (dict Decimal))
  : Prop :=
  contains "." (fst dsl) = false
  /\ snd dsl <> []
  /\ NoDup (keys (snd dsl))
  /\ Forall (slot_ok kst (fst dsl)) (snd dsl).

Definition mount_ok (m : Mount) : Prop :=
  contains "," (Mount_str m) = false
  /\ contains NL (Mount_str m) = false
  /\ Mount_from_str (Mount_str m) = Ok m.

Definition survives (kst : dict str) (r : KernelResourceSpec) : Prop :=
  clean (container_id r)
  /\ clean (BinarySize_format_m (scratch_disk_size r))
  /\ BinarySize_finite_from_str (BinarySize_format_m (scratch_disk_size r))
     = Ok (scratch_disk_size r)
  /\ Forall mount_ok (mounts r)
  /\ clean (json_dumps (slots r))
  /\ json_loads (json_dumps (slots r)) = Ok (slots r)
  /\ NoDup (keys (allocations r))
  /\ Forall (device_ok kst) (allocations r).

(** The claim of the specification: every slot name of the allocations is
    in the registry. *)
Definition slots_known (kst : dict str) (r : KernelResourceSpec) : Prop :=
  forall dev sl slot pda,
    In (dev, sl) (allocations r) -> In (slot, pda) sl ->
    dict_get slot kst <> None.
End Codec.

(** ** A model of the imported library

    The definitions of this part stand for code outside this module; they
    make the record functions executable on concrete inputs. *)

From Stdlib Require Import DecimalString DecimalZ DecimalPos.

(** [str(n)] for an integer. *)
Definition Z_str (n : Z) : str :=
  list_ascii_of_string (NilEmpty.string_of_int (Z.to_int n)).

(** Integer literals; anything else is rejected. *)
Definition Z_of_str (s : str) : result Z :=
  match NilEmpty.int_of_string (string_of_list_ascii s) with
  | Some (Decimal.Pos Decimal.Nil) | Some (Decimal.Neg Decimal.Nil) | None =>
      Raise InvalidOperation
  | Some d => Ok (Z.of_int d)
  end.

(** Modelled from the spec: [BinarySize] is defined in
    [ai.backend.common.types].  The spec describes a human-readable
    binary-size suffix form such as [10g], standing for [10 * 2^30] bytes;
    the suffixes k, m, g, t, p, e stand for the powers of [2^10]. *)
Definition suffixes : list (ascii * Z) :=
  [("e"%char, 2 ^ 60); ("p"%char, 2 ^ 50); ("t"%char, 2 ^ 40);
   ("g"%char, 2 ^ 30); ("m"%char, 2 ^ 20); ("k"%char, 2 ^ 10)].

Fixpoint suffix_lookup (c : ascii) (l : list (ascii * Z)) : option Z :=
  match l with
  | [] => None
  | (c', u) :: l' => if Ascii.eqb c c' then Some u else suffix_lookup c l'
  end.

(** Modelled from the spec: the rendering in suffix form (format [s]).  The
    spec shows [10g] and does not say which unit a rendering chooses; this
    model takes the largest unit that divides the size.  It serves to run
    the record functions on examples: no theorem about them depends on the
    choice. *)
Fixpoint scaled (v : Z) (l : list (ascii * Z)) : str :=
  match l with
  | [] => Z_str v
  | (c, u) :: l' =>
      if (v mod u =? 0) && negb (v =? 0) then Z_str (v / u) ++ [c]
      else scaled v l'
  end.

Definition model_format_s (v : Z) : str := scaled v suffixes.

(** Modelled from the spec: the rendering in a given unit (format [m]);
    sizes that are not whole multiples of the unit are rounded down. *)
Definition model_format_m (v : Z) : str := Z_str (v / 2 ^ 20) ++ !"m".

(** Modelled from the spec: [BinarySize.from_str], a number followed by an
    optional suffix. *)
Definition model_from_str (s : str) : result Z :=
  match rev s with
  | [] => Raise (ValueError !"Unconvertible value")
  | c :: r =>
      match suffix_lookup c suffixes with
      | Some u => n <- Z_of_str (rev r) ;; Ok (n * u)
      | None => Z_of_str s
      end
  end.

(** A JSON object whose keys and values are strings. *)
Definition QUOTE : ascii := ascii_of_nat 34.

Definition json_escape (c : ascii) : str :=
  if Ascii.eqb c QUOTE then [ "\"%char; QUOTE ]
  else if Ascii.eqb c "\" then [ "\"%char; "\"%char ]
  else if Ascii.eqb c NL then [ "\"%char; "n"%char ]
  else [c].

Definition json_quote (s : str) : str :=
  [QUOTE] ++ flat_map json_escape s ++ [QUOTE].

Definition model_json_dumps (d : dict str) : str :=
  !"{" ++ join !", " (map (fun kv => json_quote (fst kv) ++ !": " ++ json_quote (snd kv)) d)
    ++ !"}".

(** The rest of a string literal after its opening quote. *)
Fixpoint json_read_string (s acc : str) : option (str * str) :=
  match s with
  | [] => None
  | c :: r =>
      if Ascii.eqb c QUOTE then Some (rev acc, r)
      else if Ascii.eqb c "\" then
        match r with
        | [] => None
        | e :: r' =>
            json_read_string r' ((if Ascii.eqb e "n" then NL else e) :: acc)
        end
      else json_read_string r (c :: acc)
  end.

Definition json_expect (c : ascii) (s : str) : option str :=
  match lstrip s with
  | x :: r => if Ascii.eqb x c then Some (lstrip r) else None
  | [] => None
  end.

Definition json_error : exn := ValueError !"JSONDecodeError".

(** The members of an object, after its opening brace. *)
Fixpoint json_members (fuel : nat) (s : str) (d : dict str) : result (dict str) :=
  match fuel with
  | O => Raise json_error
  | S fuel' =>
      match json_expect QUOTE s with
      | None => Raise json_error
      | Some s1 =>
          match json_read_string s1 [] with
          | None => Raise json_error
          | Some (k, s2) =>
              match json_expect ":" s2 with
              | None => Raise json_error
              | Some s3 =>
                  match json_expect QUOTE s3 with
                  | None => Raise json_error
                  | Some s4 =>
                      match json_read_string s4 [] with
                      | None => Raise json_error
                      | Some (v, s5) =>
                          match lstrip s5 with
                          | "}"%char :: r =>
                              if str_eqb (lstrip r) [] then Ok (dict_set d k v)
                              else Raise json_error
                          | ","%char :: r => json_members fuel' r (dict_set d k v)
                          | _ => Raise json_error
                          end
                      end
                  end
              end
          end
      end
  end.

Definition model_json_loads (s : str) : result (dict str) :=
  match json_expect "{" s with
  | None => Raise json_error
  | Some r =>
      match r with
      | "}"%char :: r' => if str_eqb (lstrip r') [] then Ok [] else Raise json_error
      | _ => json_members (length s) r []
      end
  end.

(** Integer-valued decimals with the size model above. *)
#[global] Instance model : Library := {|
  Decimal := Z;
  Decimal_str := Z_str;
  Decimal_of_str := Z_of_str;
  BinarySize_format_s := model_format_s;
  BinarySize_format_m := model_format_m;
  BinarySize_from_str := model_from_str;
  BinarySize_finite_from_str := model_from_str;
  json_dumps := model_json_dumps;
  json_loads := model_json_loads
|}.

Definition example_spec : KernelResourceSpec :=
  mkSpec !"abc123"
         [(!"cpu", !"1"); (!"mem", !"1g")]
         [(!"cpu", [(!"cpu", [(!"0", 1)])]);
          (!"mem", [(!"mem", [(!"root", 10 * 2 ^ 30)])])]
         (10 * 2 ^ 30)
         [mkMount BIND (SourcePath (Path_of_str !"/data"))
                  (Path_of_str !"/workspace") READ_WRITE None].

Definition upper_case_spec : KernelResourceSpec :=
  mkSpec !"abc" [] [(!"CUDA", [(!"CUDA", [(!"0", 1)])])] 0 [].

Definition example_registry : dict str :=
  [(!"cpu", !"count"); (!"mem", !"bytes")].


(** ** Files *)

(** [file.readlines()] on a text file read from its start: the lines of the
    content, each with its line break.  [content] is the text as the reader
    sees it, after the translation of line breaks that the file object does
    ([universal_newlines] below for a file opened in the default mode). *)
Fixpoint readlines (content : str) : list str :=
  match content with
  | [] => []
  | c :: rest =>
      if Ascii.eqb c NL then [c] :: readlines rest
      else match readlines rest with
           | [] => [[c]]
           | line :: lines => (c :: line) :: lines
           end
  end.

(** [read_from_file] (and [aread_from_file], which has the same body) on a
    file with the given content. *)
Definition read_from_file {L : Library} (kst : dict str) (content : str)
  : result KernelResourceSpec :=
  let text := join [NL] (readlines content) in
  read_from_string kst text.

(** [write_to_file] on a file whose content so far is [file], written at
    its end. *)
Definition write_to_file {L : Library} (kst : dict str)
           (r : KernelResourceSpec) (file : str) : result str :=
  text <- write_to_string kst r ;; Ok (file ++ text).

(** ** Mounts in canonical form *)

(** A path segment as [Path] keeps it. *)
Definition segment_ok (x : str) : Prop :=
  x <> [] /\ x <> !"." /\ contains "/" x = false.

(** A path as [Path_of_str] builds it. *)
Definition Path_ok (p : Path) : Prop :=
  (root p = [] \/ root p = !"/" \/ root p = !"//")
  /\ Forall segment_ok (tail p).

Definition no_colon (p : Path) : Prop :=
  Forall (fun x => contains ":" x = false) (tail p).

(** A mount as [Mount.from_str] builds it. *)
Definition Mount_canonical (m : Mount) : Prop :=
  opts m = None
  /\ Path_ok (target m) /\ no_colon (target m)
  /\ is_absolute (target m) = true
  /\ match type m, source m with
     | BIND, SourcePath p =>
         Path_ok p /\ no_colon p /\ is_absolute p = true
     | VOLUME, SourceName name =>
         segment_ok name /\ contains ":" name = false
     | _, _ => False
     end.

(** ** Well-formed allocations *)


(** An entry of a [_SHARES] value with a device id and an amount. *)
Definition entry_complete (entry : str) : bool :=
  let '(raw_dev_id, _, raw_alloc) := partition ":" entry in
  negb (str_eqb raw_dev_id []) && negb (str_eqb raw_alloc []).

(** The amounts are read by parsers that never raise [KeyError]. *)
Definition no_KeyError {L : Library} : Prop :=
  forall s k, Decimal_of_str s <> Raise (KeyError k)
              /\ BinarySize_from_str s <> Raise (KeyError k).

(** ** ComputePluginContext.attach_intrinsic_device *)

(** [self.plugins[plugin.key] = plugin] on the plugin dict of the context;
    [key] reads the [key] attribute of a plugin. *)
Definition attach_intrinsic_device {Plugin : Type} (key : Plugin -> str)
           (plugins : dict Plugin) (plugin : Plugin) : dict Plugin :=
  dict_set plugins (key plugin) plugin.

(** A device family with at least one slot. *)
Definition has_slots {V : Type} (dsl : str * dict V) : bool :=
  match snd dsl with
  | [] => false
  | _ :: _ => true
  end.



(** ** Text files *)

Definition CR : ascii := ascii_of_nat 13.

(** What a text file opened in the default mode hands to its reader: a
    carriage return followed by a line feed, and a carriage return alone,
    become a line feed. *)
Fixpoint universal_newlines (raw : str) : str :=
  match raw with
  | [] => []
  | c :: rest =>
      if Ascii.eqb c CR then
        NL :: match rest with
              | c' :: rest' =>
                  if Ascii.eqb c' NL then universal_newlines rest'
                  else universal_newlines rest
              | [] => []
              end
      else c :: universal_newlines rest
  end.

(** What such a file stores for the characters written to it: every line
    feed becomes the line separator of the platform ([os.linesep]). *)
Definition stored (linesep : str) (written : str) : str :=
  flat_map (fun c => if Ascii.eqb c NL then linesep else [c]) written.

(** * Properties *)

(** ** Strings *)

Lemma str_eqb_refl (a : str) : str_eqb a a = true.
Proof. unfold str_eqb. destruct (list_eq_dec ascii_dec a a); congruence. Qed.

Lemma str_eqb_eq (a b : str) : str_eqb a b = true <-> a = b.
Proof. unfold str_eqb. destruct (list_eq_dec ascii_dec a b); split; congruence. Qed.

Lemma str_eqb_neq (a b : str) : str_eqb a b = false <-> a <> b.
Proof. unfold str_eqb. destruct (list_eq_dec ascii_dec a b); split; congruence. Qed.

(** ** bitmask2set *)

Lemma land_one_testbit (mask : Z) :
  (Z.land mask 1 =? 1) = Z.testbit mask 0.
Proof.
  change 1 with (Z.ones 1) at 1.
  rewrite Z.land_ones by lia.
  change (2 ^ 1) with 2.
  rewrite <- Z.bit0_mod.
  destruct (Z.testbit mask 0); reflexivity.
Qed.

Lemma bitmask2set_loop_spec (fuel : nat) :
  forall mask bpos bset,
    mask < 2 ^ Z.of_nat fuel ->
    exists s,
      bitmask2set_loop (S fuel) mask bpos bset = Some s
      /\ forall i, In i s <->
                   In i bset \/ (bpos <= i /\ Z.testbit mask (i - bpos) = true /\ 0 < mask).
Proof.
  induction fuel as [|fuel IH]; intros mask bpos bset Hlt.
  - change (2 ^ Z.of_nat 0) with 1 in Hlt.
    simpl. destruct (mask >? 0) eqn:Hm; [apply Z.gtb_lt in Hm; lia|].
    exists bset. split; [reflexivity|].
    intros i. split; [auto|]. intros [H|H]; [exact H|].
    rewrite Z.gtb_ltb, Z.ltb_ge in Hm. lia.
  - cbn [bitmask2set_loop].
    destruct (mask >? 0) eqn:Hm.
    + apply Z.gtb_lt in Hm.
      assert (Hsh : Z.shiftr mask 1 < 2 ^ Z.of_nat fuel).
      { rewrite Z.shiftr_div_pow2 by lia. change (2 ^ 1) with 2.
        apply Z.div_lt_upper_bound; [lia|].
        rewrite Nat2Z.inj_succ, Z.pow_succ_r in Hlt by lia. lia. }
      destruct (IH (Z.shiftr mask 1) (bpos + 1)
                   (if Z.land mask 1 =? 1 then bset ++ [bpos] else bset) Hsh)
        as (s & Hs & Hin).
      exists s. split; [exact Hs|].
      intros i. rewrite Hin. rewrite land_one_testbit.
      assert (Hbit : forall j, 0 <= j ->
                Z.testbit (Z.shiftr mask 1) j = Z.testbit mask (j + 1)).
      { intros j Hj. apply Z.shiftr_spec; exact Hj. }
      assert (Hpos : forall j, 0 <= j ->
                Z.testbit (Z.shiftr mask 1) j = true -> 0 < Z.shiftr mask 1).
      { intros j Hj Ht.
        destruct (Z.eq_dec (Z.shiftr mask 1) 0) as [E|E].
        - rewrite E, Z.bits_0 in Ht. discriminate.
        - pose proof (Z.shiftr_nonneg mask 1). lia. }
      split.
      * intros [Hb | (Hle & Ht & _)].
        -- destruct (Z.testbit mask 0) eqn:H0.
           ++ apply in_app_or in Hb. destruct Hb as [Hb|[Hb|[]]]; [auto|].
              subst i. right. rewrite Z.sub_diag. auto with zarith.
           ++ auto.
        -- right. rewrite Hbit in Ht by lia.
           replace (i - (bpos + 1) + 1) with (i - bpos) in Ht by lia.
           repeat split; [lia|exact Ht|exact Hm].
      * intros [Hb | (Hle & Ht & _)].
        -- left. destruct (Z.testbit mask 0); [apply in_or_app|]; auto.
        -- destruct (Z.eq_dec i bpos) as [E|E].
           ++ subst i. rewrite Z.sub_diag in Ht. rewrite Ht.
              left. apply in_or_app. right. left. reflexivity.
           ++ right. assert (Hj : 0 <= i - (bpos + 1)) by lia.
              assert (Ht' : Z.testbit (Z.shiftr mask 1) (i - (bpos + 1)) = true).
              { rewrite Hbit by lia.
                replace (i - (bpos + 1) + 1) with (i - bpos) by lia. exact Ht. }
              repeat split; [lia|exact Ht'|exact (Hpos _ Hj Ht')].
    + exists bset. split; [reflexivity|].
      intros i. split; [auto|]. intros [H|H]; [exact H|].
      rewrite Z.gtb_ltb, Z.ltb_ge in Hm. lia.
Qed.

(** C6. For every non-negative [mask], [bitmask2set mask] returns, and the
    set it returns holds exactly the zero-based positions of the bits of
    [mask] that are set; [bitmask2set 0b1011] is [{0, 1, 3}] and
    [bitmask2set 0] is empty. *)
Theorem bitmask2set_correct :
  (forall mask, 0 <= mask ->
     exists s, bitmask2set mask = Some s
               /\ forall i, In i s <-> (0 <= i /\ Z.testbit mask i = true))
  /\ bitmask2set 11 = Some [0; 1; 3]
  /\ bitmask2set 0 = Some [].
Proof.
  split; [|split; reflexivity].
  intros mask Hmask. unfold bitmask2set.
  assert (Hlt : mask < 2 ^ Z.of_nat (Z.to_nat (Z.log2 mask + 1))).
  { pose proof (Z.log2_nonneg mask).
    rewrite Z2Nat.id by lia.
    destruct (Z.eq_dec mask 0) as [->|Hn]; [reflexivity|].
    replace (Z.log2 mask + 1) with (Z.succ (Z.log2 mask)) by lia.
    apply Z.log2_spec. lia. }
  destruct (bitmask2set_loop_spec _ mask 0 [] Hlt) as (s & Hs & Hin).
  exists s. split; [exact Hs|].
  intros i. rewrite Hin, Z.sub_0_r. split.
  - intros [[]|(H1 & H2 & _)]. auto.
  - intros (H1 & H2). right. repeat split; [exact H1|exact H2|].
    destruct (Z.eq_dec mask 0) as [->|Hn]; [|lia].
    rewrite Z.bits_0 in H2. discriminate.
Qed.

(** The witness runs the general statement at [mask = 0b1011]. *)
Lemma bitmask2set_correct_witness :
  exists s, bitmask2set 11 = Some s
            /\ forall i, In i s <-> (0 <= i /\ Z.testbit 11 i = true).
Proof.
  apply (proj1 bitmask2set_correct 11). lia.
Defined.

(** ** discover_plugins *)

Section PluginOrder.
Context {PluginClass : Type}.
Implicit Types (item : str * PluginClass) (l : list (str * PluginClass)).

Lemma key_intrinsic item :
  accel_lt_intrinsic item = if intrinsic item then 0 else -1.
Proof. reflexivity. Qed.

Lemma sort_insert_accelerator item l :
  intrinsic item = false ->
  sort_insert accel_lt_intrinsic item l = item :: l.
Proof.
  intros Hi. destruct l as [|y l]; [reflexivity|].
  simpl. rewrite !key_intrinsic, Hi.
  destruct (intrinsic y); reflexivity.
Qed.

Lemma sort_insert_intrinsic item l1 l2 :
  intrinsic item = true ->
  forallb accelerator l1 = true ->
  forallb intrinsic l2 = true ->
  sort_insert accel_lt_intrinsic item (l1 ++ l2) = l1 ++ item :: l2.
Proof.
  intros Hi H1 H2. induction l1 as [|y l1 IH].
  - simpl. destruct l2 as [|z l2]; [reflexivity|].
    simpl in *. apply andb_prop in H2. destruct H2 as [Hz _].
    rewrite !key_intrinsic, Hi, Hz. reflexivity.
  - simpl in *. apply andb_prop in H1. destruct H1 as [Hy H1].
    unfold accelerator in Hy. apply negb_true_iff in Hy.
    rewrite !key_intrinsic, Hi, Hy. simpl. rewrite (IH H1). reflexivity.
Qed.

Lemma forallb_filter_self {A : Type} (f : A -> bool) (l : list A) :
  forallb f (filter f l) = true.
Proof.
  induction l as [|x l IH]; [reflexivity|].
  simpl. destruct (f x) eqn:E; [simpl; rewrite E|]; exact IH.
Qed.

Lemma list_sort_partition l :
  list_sort accel_lt_intrinsic l = filter accelerator l ++ filter intrinsic l.
Proof.
  induction l as [|x l IH]; [reflexivity|].
  simpl. rewrite IH.
  replace (accelerator x) with (negb (intrinsic x)) by reflexivity.
  destruct (intrinsic x) eqn:Hx; simpl.
  - apply sort_insert_intrinsic; [exact Hx| |]; apply forallb_filter_self.
  - apply sort_insert_accelerator. exact Hx.
Qed.
End PluginOrder.

(** C7. [discover_plugins] yields the discovered pairs with the pairs named
    [cpu] or [mem] after all the others, each of the two groups in discovery
    order; [[gpu, cpu, fpga, mem]] becomes [[gpu, fpga, cpu, mem]]. *)
Theorem discover_plugins_order :
  (forall (PluginClass : Type) (scanned : list (str * PluginClass)),
      discover_plugins scanned
      = filter accelerator scanned ++ filter intrinsic scanned)
  /\ (forall (PluginClass : Type) (item : str * PluginClass),
         intrinsic item = true <-> fst item = !"cpu" \/ fst item = !"mem")
  /\ discover_plugins [(!"gpu", 1); (!"cpu", 2); (!"fpga", 3); (!"mem", 4)]
     = [(!"gpu", 1); (!"fpga", 3); (!"cpu", 2); (!"mem", 4)].
Proof.
  split; [|split].
  - intros. apply list_sort_partition.
  - intros P item. unfold intrinsic.
    rewrite orb_true_iff, !str_eqb_eq. reflexivity.
  - reflexivity.
Qed.

(** ** Mount.from_str *)

Lemma MountPermission_of_value_cases (perm : str) :
  (exists p, MountPermission_of_value perm = Ok p)
  \/ raises_ValueError (MountPermission_of_value perm).
Proof.
  unfold MountPermission_of_value, raises_ValueError.
  destruct (str_eqb perm !"ro"); [left; eauto|].
  destruct (str_eqb perm !"rw"); [left; eauto|right; eauto].
Qed.

Lemma Mount_from_str_fields (s : str) :
  (forall a b c, split ":" s <> [a; b; c]) ->
  raises_ValueError (Mount_from_str s).
Proof.
  intros H. unfold Mount_from_str, raises_ValueError.
  destruct (split ":" s) as [|a [|b [|c [|d l]]]]; eauto.
  exfalso. apply (H a b c). reflexivity.
Qed.

Lemma Mount_from_str_three (s a b c : str) :
  split ":" s = [a; b; c] ->
  Mount_from_str s =
    (st <- (if negb (is_absolute (Path_of_str a)) then
              if (length (parts (Path_of_str a)) =? 1)%nat
              then Ok (SourceName (Path_str (Path_of_str a)), VOLUME)
              else Raise (ValueError
                     !"Mount source must be an absolute path if it is not a volume name.")
            else Ok (SourcePath (Path_of_str a), BIND)) ;;
     if negb (is_absolute (Path_of_str b)) then
       Raise (ValueError !"Mount target must be an absolute path.")
     else
       perm <- MountPermission_of_value c ;;
       Ok (mkMount (snd st) (fst st) (Path_of_str b) perm None)).
Proof. intros H. unfold Mount_from_str. rewrite H. reflexivity. Qed.

(** C5. [Mount.from_str] fails unless the string has exactly three
    [:]-separated fields and the third is a permission value; an absolute
    source gives a BIND mount, a relative source of one segment a VOLUME
    mount, any other relative source and any relative target an error; the
    four examples of the specification behave as stated. *)
Theorem Mount_from_str_spec :
  (forall s, (forall a b c, split ":" s <> [a; b; c]) ->
             raises_ValueError (Mount_from_str s))
  /\ (forall s a b c, split ":" s = [a; b; c] ->
        raises_ValueError (MountPermission_of_value c) ->
        raises_ValueError (Mount_from_str s))
  /\ (forall s a b c p, split ":" s = [a; b; c] ->
        is_absolute (Path_of_str a) = true ->
        is_absolute (Path_of_str b) = true ->
        MountPermission_of_value c = Ok p ->
        Mount_from_str s
        = Ok (mkMount BIND (SourcePath (Path_of_str a)) (Path_of_str b) p None))
  /\ (forall s a b c p, split ":" s = [a; b; c] ->
        is_absolute (Path_of_str a) = false ->
        length (parts (Path_of_str a)) = 1%nat ->
        is_absolute (Path_of_str b) = true ->
        MountPermission_of_value c = Ok p ->
        Mount_from_str s
        = Ok (mkMount VOLUME (SourceName (Path_str (Path_of_str a)))
                      (Path_of_str b) p None))
  /\ (forall s a b c, split ":" s = [a; b; c] ->
        is_absolute (Path_of_str a) = false ->
        length (parts (Path_of_str a)) <> 1%nat ->
        raises_ValueError (Mount_from_str s))
  /\ (forall s a b c, split ":" s = [a; b; c] ->
        is_absolute (Path_of_str b) = false ->
        raises_ValueError (Mount_from_str s))
  /\ Mount_from_str !"/data:/workspace:rw"
     = Ok (mkMount BIND (SourcePath (mkPath !"/" [!"data"]))
                   (mkPath !"/" [!"workspace"]) READ_WRITE None)
  /\ Mount_from_str !"myvol:/workspace:ro"
     = Ok (mkMount VOLUME (SourceName !"myvol")
                   (mkPath !"/" [!"workspace"]) READ_ONLY None)
  /\ raises_ValueError (Mount_from_str !"rel/path:/workspace:ro")
  /\ raises_ValueError (Mount_from_str !"/data:rel/target:ro").
Proof.
  repeat apply conj.
  - exact Mount_from_str_fields.
  - intros s a b c Hs [msg Hp]. rewrite (Mount_from_str_three _ _ _ _ Hs).
    destruct (negb (is_absolute (Path_of_str a)));
      [destruct (length (parts (Path_of_str a)) =? 1)%nat|]; simpl;
      try (eexists; reflexivity);
      destruct (negb (is_absolute (Path_of_str b))); simpl;
      try (eexists; reflexivity); rewrite Hp; simpl; eexists; reflexivity.
  - intros s a b c p Hs Ha Hb Hp. rewrite (Mount_from_str_three _ _ _ _ Hs).
    rewrite Ha, Hb. simpl. rewrite Hp. reflexivity.
  - intros s a b c p Hs Ha Hl Hb Hp. rewrite (Mount_from_str_three _ _ _ _ Hs).
    rewrite Ha, Hb, Hl. simpl. rewrite Hp. reflexivity.
  - intros s a b c Hs Ha Hl. rewrite (Mount_from_str_three _ _ _ _ Hs).
    rewrite Ha. apply Nat.eqb_neq in Hl. rewrite Hl. simpl.
    eexists; reflexivity.
  - intros s a b c Hs Hb. rewrite (Mount_from_str_three _ _ _ _ Hs).
    rewrite Hb.
    destruct (negb (is_absolute (Path_of_str a)));
      [destruct (length (parts (Path_of_str a)) =? 1)%nat|]; simpl;
      eexists; reflexivity.
  - reflexivity.
  - reflexivity.
  - eexists; reflexivity.
  - eexists; reflexivity.
Qed.

(** The witness runs the VOLUME case at ["myvol:/workspace:ro"]. *)
Lemma Mount_from_str_spec_witness :
  Mount_from_str !"myvol:/workspace:ro"
  = Ok (mkMount VOLUME (SourceName (Path_str (Path_of_str !"myvol")))
                (Path_of_str !"/workspace") READ_ONLY None).
Proof.
  apply (proj1 (proj2 (proj2 (proj2 Mount_from_str_spec)))
           !"myvol:/workspace:ro" !"myvol" !"/workspace" !"ro" READ_ONLY);
    reflexivity.
Defined.

(** ** read_from_string: mandatory and optional keys *)

Section ReadKeys.
Context {L : Library}.

Lemma read_from_kvpairs_missing (kst : dict str) (kv : dict str) (key : str) :
  In key [!"MOUNTS"; !"SLOTS"; !"SCRATCH_SIZE"] ->
  dict_get key kv = None ->
  raises (read_from_kvpairs kst kv).
Proof.
  intros Hin Hget. unfold read_from_kvpairs, raises, dict_item.
  destruct (parse_allocations kst kv [] []) as [al|e]; cbn [bind]; [|eauto].
  destruct (dict_get !"MOUNTS" kv) as [rm|] eqn:Hm; cbn [bind]; [|eauto].
  destruct (parse_mounts (split "," rm)) as [ms|e]; cbn [bind]; [|eauto].
  destruct (dict_get !"SCRATCH_SIZE" kv) as [rs|] eqn:Hs; cbn [bind]; [|eauto].
  destruct (BinarySize_finite_from_str rs) as [n|e]; cbn [bind]; [|eauto].
  destruct (dict_get !"SLOTS" kv) as [rj|] eqn:Hj; cbn [bind]; [|eauto].
  exfalso.
  destruct Hin as [<-|[<-|[<-|[]]]]; congruence.
Qed.

(** C4. When one of the keys MOUNTS, SLOTS and SCRATCH_SIZE is absent
    from the key-value pairs read from the text, [read_from_string]
    raises: no record is returned. *)
Theorem read_from_string_mandatory (kst : dict str) (text key : str) :
  In key [!"MOUNTS"; !"SLOTS"; !"SCRATCH_SIZE"] ->
  dict_get key (parse_kvpairs text) = None ->
  raises (read_from_string kst text)
  /\ forall r, read_from_string kst text <> Ok r.
Proof.
  intros Hin Hget.
  destruct (read_from_kvpairs_missing kst _ _ Hin Hget) as [e He].
  unfold read_from_string, read_from_string_log. rewrite He. cbn [bind].
  split; [exists e; reflexivity|discriminate].
Qed.

(** C9. When the text has no CID key and the allocation lines, MOUNTS,
    SCRATCH_SIZE and SLOTS all parse, [read_from_string] returns a record
    whose [container_id] is ["unknown"]. *)
Theorem read_from_string_no_cid (kst : dict str) (text : str)
        al raw_mounts ms raw_size size raw_slots sl :
  dict_get !"CID" (parse_kvpairs text) = None ->
  parse_allocations kst (parse_kvpairs text) [] [] = Ok al ->
  dict_get !"MOUNTS" (parse_kvpairs text) = Some raw_mounts ->
  parse_mounts (split "," raw_mounts) = Ok ms ->
  dict_get !"SCRATCH_SIZE" (parse_kvpairs text) = Some raw_size ->
  BinarySize_finite_from_str raw_size = Ok size ->
  dict_get !"SLOTS" (parse_kvpairs text) = Some raw_slots ->
  json_loads raw_slots = Ok sl ->
  read_from_string kst text = Ok (mkSpec !"unknown" sl (fst al) size ms).
Proof.
  intros Hc Hal Hm Hms Hs Hsz Hj Hsl.
  unfold read_from_string, read_from_string_log, read_from_kvpairs, dict_item.
  rewrite Hal, Hm. cbn [bind]. rewrite Hms, Hs. cbn [bind].
  rewrite Hsz, Hj. cbn [bind]. rewrite Hsl, Hc. reflexivity.
Qed.
End ReadKeys.

(** The witness reads a text without the MOUNTS line. *)
Lemma read_from_string_mandatory_witness :
  raises (read_from_string [] !"CID=abc
SCRATCH_SIZE=0m
SLOTS={}
")
  /\ forall r, read_from_string [] !"CID=abc
SCRATCH_SIZE=0m
SLOTS={}
" <> Ok r.
Proof.
  apply (read_from_string_mandatory (L := model) [] _ !"MOUNTS").
  - simpl. auto.
  - reflexivity.
Defined.

(** The witness reads a text without the CID line. *)
Lemma read_from_string_no_cid_witness :
  read_from_string [(!"cpu", !"count")] !"SCRATCH_SIZE=1m
MOUNTS=myvol:/workspace:ro
SLOTS={}
CPU_SHARES=0:1
"
  = Ok (mkSpec !"unknown" [] [(!"cpu", [(!"cpu", [(!"0", 1)])])] (2 ^ 20)
               [mkMount VOLUME (SourceName !"myvol")
                        (mkPath !"/" [!"workspace"]) READ_ONLY None]).
Proof.
  apply (read_from_string_no_cid (L := model) [(!"cpu", !"count")] _
           ([(!"cpu", [(!"cpu", [(!"0", 1)])])], [])
           !"myvol:/workspace:ro" _ !"1m" _ !"{}" []);
    reflexivity.
Defined.

(** ** write_to_string: the family prefix *)

Section WritePrefix.
Context {L : Library}.

Lemma write_slots_result (kst : dict str) (dev : str) (sl : dict (dict Decimal)) :
  forall acc,
    (exists text, write_slots kst dev sl acc = Ok text)
    \/ raises_ValueError (write_slots kst dev sl acc).
Proof.
  induction sl as [|[slot pda] sl IH]; intros acc; simpl.
  - left. eauto.
  - destruct (family_prefix_ok dev slot); simpl.
    + apply IH.
    + right. eexists. reflexivity.
Qed.

Lemma write_slots_bad (kst : dict str) (dev slot : str) pda
      (sl : dict (dict Decimal)) :
  In (slot, pda) sl ->
  family_prefix_ok dev slot = false ->
  forall acc, raises_ValueError (write_slots kst dev sl acc).
Proof.
  intros Hin Hbad. induction sl as [|[slot' pda'] sl IH]; intros acc.
  - destruct Hin.
  - simpl. destruct (family_prefix_ok dev slot') eqn:Hok; simpl.
    + destruct Hin as [E|Hin]; [congruence|]. apply IH. exact Hin.
    + eexists. reflexivity.
Qed.

Lemma write_allocations_bad (kst : dict str) (dev slot : str) pda sl
      (allocs : dict (dict (dict Decimal))) :
  In (dev, sl) allocs ->
  In (slot, pda) sl ->
  family_prefix_ok dev slot = false ->
  forall acc, raises_ValueError (write_allocations kst allocs acc).
Proof.
  intros Hd Hs Hbad. induction allocs as [|[dev' sl'] allocs IH]; intros acc.
  - destruct Hd.
  - simpl. destruct Hd as [E|Hd].
    + inversion E; subst dev' sl'.
      destruct (write_slots_bad kst dev slot pda sl Hs Hbad acc) as [msg ->].
      eexists. reflexivity.
    + destruct (write_slots_result kst dev' sl' acc) as [[text ->]|[msg ->]].
      * simpl. apply IH. exact Hd.
      * eexists. reflexivity.
Qed.

(** C3. When the allocations hold a slot name under a device family that
    is neither the family name nor the family name followed by a dot and
    more, [write_to_string] raises [ValueError]; it returns no text, so no
    line is emitted for that pair. *)
Theorem write_to_string_family_prefix (kst : dict str)
        (r : KernelResourceSpec) (dev slot : str) sl pda :
  In (dev, sl) (allocations r) ->
  In (slot, pda) sl ->
  slot <> dev ->
  startswith slot (dev ++ !".") = false ->
  raises_ValueError (write_to_string kst r)
  /\ forall text, write_to_string kst r <> Ok text.
Proof.
  intros Hd Hs Hne Hpre.
  assert (Hbad : family_prefix_ok dev slot = false).
  { unfold family_prefix_ok. rewrite Hpre. simpl.
    apply str_eqb_neq. exact Hne. }
  destruct (write_allocations_bad kst dev slot pda sl _ Hd Hs Hbad (header r))
    as [msg Hmsg].
  unfold write_to_string. rewrite Hmsg.
  split; [eexists; reflexivity|discriminate].
Qed.
End WritePrefix.

(** The witness writes a record with the slot [cuda.device] filed under the
    family [cpu]. *)
Lemma write_to_string_family_prefix_witness :
  let r := mkSpec !"abc" [] [(!"cpu", [(!"cuda.device", [(!"0", 1)])])] 0 [] in
  raises_ValueError (write_to_string [] r)
  /\ forall text, write_to_string [] r <> Ok text.
Proof.
  apply (write_to_string_family_prefix (L := model) [] _
           !"cpu" !"cuda.device" [(!"cuda.device", [(!"0", 1)])] [(!"0", 1)]).
  - left. reflexivity.
  - left. reflexivity.
  - discriminate.
  - reflexivity.
Defined.

(** ** Dicts and case mapping *)




Lemma to_lower_to_upper (c : ascii) :
  (nat_of_ascii c <? 128)%nat = true ->
  map to_lower (to_upper c) = [to_lower c].
Proof.
  destruct c as [[] [] [] [] [] [] [] []]; intros H;
    try reflexivity; vm_compute in H; discriminate H.
Qed.


Lemma lower_upper (s : str) :
  is_ascii s = true -> lower (upper s) = lower s.
Proof.
  induction s as [|c s IH]; [reflexivity|].
  cbn [is_ascii forallb]. intros H. apply andb_true_iff in H.
  destruct H as [Hc Hs].
  unfold lower, upper in *. cbn [flat_map map].
  rewrite map_app, (to_lower_to_upper _ Hc), (IH Hs). reflexivity.
Qed.

(** Outside ASCII the two mappings do not cancel: the sharp s comes back
    as [ss]. *)
Lemma lower_upper_sharp_s : lower (upper [ascii_of_nat 223]) = !"ss".
Proof. reflexivity. Qed.

Lemma drop_last_app (s t : str) : drop_last (length t) (s ++ t) = s.
Proof.
  unfold drop_last. rewrite length_app.
  replace (length s + length t - length t)%nat with (length s + 0)%nat by lia.
  rewrite firstn_app_2. simpl. apply app_nil_r.
Qed.

Lemma skipn_length_app (s t : str) : skipn (length s) (s ++ t) = t.
Proof. induction s as [|c s IH]; [reflexivity|exact IH]. Qed.

Lemma endswith_app (s t : str) : endswith (s ++ t) t = true.
Proof.
  unfold endswith. rewrite length_app.
  replace (length s + length t - length t)%nat with (length s) by lia.
  rewrite skipn_length_app, str_eqb_refl.
  apply andb_true_iff. split; [apply Nat.leb_le; lia|reflexivity].
Qed.

Lemma split_nonempty (c : ascii) (s : str) : split c s <> [].
Proof.
  destruct s as [|x s]; simpl; [discriminate|].
  destruct (Ascii.eqb x c); [discriminate|].
  destruct (split c s); discriminate.
Qed.

Lemma split_no_sep (c : ascii) (s : str) :
  contains c s = false -> split c s = [s].
Proof.
  induction s as [|x s IH]; [reflexivity|].
  simpl. rewrite Ascii.eqb_sym.
  destruct (Ascii.eqb x c); simpl; [discriminate|].
  intros H. rewrite (IH H). reflexivity.
Qed.

Lemma split_app_sep (c : ascii) (a b : str) :
  contains c a = false -> split c (a ++ c :: b) = a :: split c b.
Proof.
  induction a as [|x a IH]; simpl.
  - rewrite Ascii.eqb_refl. reflexivity.
  - rewrite (Ascii.eqb_sym c x).
    destruct (Ascii.eqb x c); simpl; [discriminate|].
    intros H. rewrite (IH H). reflexivity.
Qed.

(** ** read_from_string: the shape of the allocations *)

Section ReadShape.
Context {L : Library}.




End ReadShape.

(** ** Lines, separators and whitespace *)

Lemma contains_app (c : ascii) (a b : str) :
  contains c (a ++ b) = contains c a || contains c b.
Proof. apply existsb_app. Qed.

Lemma contains_cons (c x : ascii) (s : str) :
  contains c (x :: s) = Ascii.eqb c x || contains c s.
Proof. reflexivity. Qed.

Lemma partition_app_sep (c : ascii) (a b : str) :
  contains c a = false -> partition c (a ++ c :: b) = (a, true, b).
Proof.
  induction a as [|x a IH]; simpl.
  - rewrite Ascii.eqb_refl. reflexivity.
  - rewrite (Ascii.eqb_sym c x).
    destruct (Ascii.eqb x c); simpl; [discriminate|].
    intros H. rewrite (IH H). reflexivity.
Qed.

Lemma split_join (c : ascii) (l : list str) :
  l <> [] ->
  Forall (fun s => contains c s = false) l ->
  split c (join [c] l) = l.
Proof.
  induction l as [|x l IH]; [congruence|].
  intros _ Hall. inversion Hall as [|? ? Hx Hl]; subst.
  destruct l as [|y l].
  - simpl. apply split_no_sep. exact Hx.
  - change (join [c] (x :: y :: l)) with (x ++ c :: join [c] (y :: l)).
    rewrite (split_app_sep _ _ _ Hx). f_equal.
    apply IH; [discriminate|exact Hl].
Qed.

Lemma lstrip_length (s : str) : (length (lstrip s) <= length s)%nat.
Proof.
  induction s as [|c s IH]; simpl; [lia|].
  destruct (is_space c); simpl; lia.
Qed.

Lemma lstrip_fixed (s : str) :
  lstrip s = s ->
  match s with
  | [] => True
  | c :: _ => is_space c = false
  end.
Proof.
  destruct s as [|c s]; [trivial|]. simpl.
  destruct (is_space c); [|reflexivity].
  intros H. pose proof (lstrip_length s) as Hl. rewrite H in Hl. simpl in Hl. lia.
Qed.

Lemma lstrip_head (c : ascii) (s : str) :
  is_space c = false -> lstrip (c :: s) = c :: s.
Proof. intros H. simpl. rewrite H. reflexivity. Qed.

Lemma rstrip_last (s : str) (c : ascii) :
  is_space c = false -> rstrip (s ++ [c]) = s ++ [c].
Proof.
  intros H. unfold rstrip. rewrite rev_app_distr. simpl rev at 2.
  simpl app. rewrite (lstrip_head _ _ H).
  change (c :: rev s) with ([c] ++ rev s).
  rewrite rev_app_distr, rev_involutive. reflexivity.
Qed.

Lemma rstrip_app (a s : str) (c : ascii) :
  is_space c = false -> rstrip s = s -> rstrip (a ++ c :: s) = a ++ c :: s.
Proof.
  intros Hc Hs. destruct (rev s) as [|x t] eqn:Hr.
  - assert (s = []) as ->.
    { rewrite <- (rev_involutive s), Hr. reflexivity. }
    apply rstrip_last. exact Hc.
  - assert (Hl : lstrip (rev s) = rev s).
    { unfold rstrip in Hs. rewrite <- Hs at 2. rewrite rev_involutive. reflexivity. }
    rewrite Hr in Hl. apply lstrip_fixed in Hl.
    assert (Es : s = rev t ++ [x]).
    { rewrite <- (rev_involutive s), Hr. reflexivity. }
    rewrite Es.
    replace (a ++ c :: rev t ++ [x]) with ((a ++ c :: rev t) ++ [x])
      by (rewrite <- app_assoc; reflexivity).
    apply rstrip_last. exact Hl.
Qed.

Lemma strip_line (k v : str) :
  k <> [] -> lstrip k = k -> rstrip v = v ->
  strip (k ++ "="%char :: v) = k ++ "="%char :: v.
Proof.
  intros Hk Hl Hr. unfold strip.
  destruct k as [|c k]; [congruence|].
  apply lstrip_fixed in Hl.
  change ((c :: k) ++ "="%char :: v) with (c :: (k ++ "="%char :: v)).
  rewrite (lstrip_head _ _ Hl).
  change (c :: (k ++ "="%char :: v)) with ((c :: k) ++ "="%char :: v).
  apply rstrip_app; [reflexivity|exact Hr].
Qed.

(** ** Dicts built by insertion *)

Lemma dict_get_notin {V : Type} (d : dict V) (k : str) :
  ~ In k (keys d) -> dict_get k d = None.
Proof.
  induction d as [|[k0 v0] d IH]; [reflexivity|].
  simpl. intros H. destruct (str_eqb k k0) eqn:E.
  - apply str_eqb_eq in E. subst. exfalso. apply H. left. reflexivity.
  - apply IH. intros Hin. apply H. right. exact Hin.
Qed.

Lemma dict_set_new {V : Type} (d : dict V) (k : str) (v : V) :
  ~ In k (keys d) -> dict_set d k v = d ++ [(k, v)].
Proof.
  induction d as [|[k0 v0] d IH]; [reflexivity|].
  simpl. intros H. destruct (str_eqb k k0) eqn:E.
  - apply str_eqb_eq in E. subst. exfalso. apply H. left. reflexivity.
  - rewrite IH; [reflexivity|]. intros Hin. apply H. right. exact Hin.
Qed.

Lemma dict_get_last {V : Type} (d : dict V) (k : str) (v : V) :
  ~ In k (keys d) -> dict_get k (d ++ [(k, v)]) = Some v.
Proof.
  induction d as [|[k0 v0] d IH]; simpl.
  - rewrite str_eqb_refl. reflexivity.
  - intros H. destruct (str_eqb k k0) eqn:E.
    + apply str_eqb_eq in E. subst. exfalso. apply H. left. reflexivity.
    + apply IH. intros Hin. apply H. right. exact Hin.
Qed.

Lemma dict_set_last {V : Type} (d : dict V) (k : str) (v v' : V) :
  ~ In k (keys d) -> dict_set (d ++ [(k, v)]) k v' = d ++ [(k, v')].
Proof.
  induction d as [|[k0 v0] d IH]; simpl.
  - rewrite str_eqb_refl. reflexivity.
  - intros H. destruct (str_eqb k k0) eqn:E.
    + apply str_eqb_eq in E. subst. exfalso. apply H. left. reflexivity.
    + rewrite IH; [reflexivity|]. intros Hin. apply H. right. exact Hin.
Qed.

Lemma keys_app {V : Type} (a b : dict V) : keys (a ++ b) = keys a ++ keys b.
Proof. apply map_app. Qed.

Lemma fold_dict_set (kvs : list (str * str)) :
  forall acc,
    NoDup (keys acc ++ keys kvs) ->
    fold_left (fun d kv => dict_set d (fst kv) (snd kv)) kvs acc = acc ++ kvs.
Proof.
  induction kvs as [|[k v] kvs IH]; intros acc Hnd; simpl.
  - symmetry. apply app_nil_r.
  - assert (Hk : ~ In k (keys acc)).
    { intros Hin. apply NoDup_remove_2 in Hnd. apply Hnd.
      apply in_or_app. left. exact Hin. }
    rewrite (dict_set_new _ _ _ Hk). rewrite IH.
    + rewrite <- app_assoc. reflexivity.
    + rewrite keys_app. simpl. rewrite <- app_assoc. exact Hnd.
Qed.

(** ** Reading back rendered lines *)

Lemma render_split (kvs : list (str * str)) :
  Forall line_ok kvs ->
  split NL (concat (map render kvs))
  = map (fun kv => fst kv ++ "="%char :: snd kv) kvs ++ [[]].
Proof.
  induction kvs as [|[k v] kvs IH]; intros Hall; [reflexivity|].
  inversion Hall as [|? ? Hkv Hrest]; subst.
  destruct Hkv as (_ & _ & _ & Hnk & Hnv & _). simpl in Hnk, Hnv.
  cbn [map concat]. unfold render at 1. cbn [fst snd].
  replace ((k ++ !"=" ++ v ++ [NL]) ++ concat (map render kvs))
    with ((k ++ "="%char :: v) ++ NL :: concat (map render kvs)).
  - rewrite split_app_sep.
    + rewrite (IH Hrest). reflexivity.
    + rewrite contains_app, contains_cons, Hnk, Hnv. reflexivity.
  - cbn [list_ascii_of_string]. rewrite <- !app_assoc. reflexivity.
Qed.

Lemma parse_line_render (acc : dict str) (kv : str * str) :
  line_ok kv ->
  parse_line acc (fst kv ++ "="%char :: snd kv) = dict_set acc (fst kv) (snd kv).
Proof.
  destruct kv as [k v]. intros (Hk & Hl & He & _ & _ & Hr). cbn [fst snd] in *.
  unfold parse_line.
  rewrite contains_app, contains_cons, Ascii.eqb_refl, orb_true_r. cbn [negb].
  rewrite (strip_line _ _ Hk Hl Hr), (partition_app_sep _ _ _ He).
  reflexivity.
Qed.

Lemma parse_lines_render (kvs : list (str * str)) :
  Forall line_ok kvs ->
  forall acc,
    fold_left parse_line
              (map (fun kv => fst kv ++ "="%char :: snd kv) kvs ++ [[]]) acc
    = fold_left (fun d kv => dict_set d (fst kv) (snd kv)) kvs acc.
Proof.
  induction kvs as [|kv kvs IH]; intros Hall acc; [reflexivity|].
  inversion Hall as [|? ? Hkv Hrest]; subst.
  cbn [map app fold_left]. rewrite (parse_line_render _ _ Hkv).
  apply IH. exact Hrest.
Qed.

Lemma parse_kvpairs_render (kvs : list (str * str)) :
  Forall line_ok kvs ->
  NoDup (keys kvs) ->
  parse_kvpairs (concat (map render kvs)) = kvs.
Proof.
  intros Hall Hnd. unfold parse_kvpairs.
  rewrite (render_split _ Hall), (parse_lines_render _ Hall).
  apply (fold_dict_set kvs []). exact Hnd.
Qed.

(** ** write_to_string renders key-value pairs *)

Section WriteText.
Context {L : Library}.

Lemma alloc_piece_format kst slot item :
  alloc_piece kst slot item
  = fst item ++ ":"%char :: format_alloc kst slot (snd item).
Proof.
  unfold alloc_piece, format_alloc. destruct (is_bytes kst slot); reflexivity.
Qed.

Lemma shares_line_render kst slot pda :
  shares_line kst slot pda = render (shares_kv kst (slot, pda)).
Proof.
  unfold shares_line, render, shares_kv. cbn [fst snd].
  cbn [list_ascii_of_string]. rewrite <- !app_assoc. reflexivity.
Qed.

Lemma write_slots_text kst dev (sl : dict (dict Decimal)) :
  Forall (fun sp => family_prefix_ok dev (fst sp) = true) sl ->
  forall acc,
    write_slots kst dev sl acc
    = Ok (acc ++ concat (map render (map (shares_kv kst) sl))).
Proof.
  induction sl as [|[slot pda] sl IH]; intros Hall acc.
  - simpl. rewrite app_nil_r. reflexivity.
  - inversion Hall as [|? ? Hok Hrest]; subst. cbn [fst] in Hok.
    cbn [write_slots]. rewrite Hok. cbn [negb].
    rewrite (IH Hrest), shares_line_render.
    cbn [map concat]. rewrite <- app_assoc. reflexivity.
Qed.

Lemma write_allocations_text kst (allocs : dict (dict (dict Decimal))) :
  Forall (fun dsl =>
            Forall (fun sp => family_prefix_ok (fst dsl) (fst sp) = true)
                   (snd dsl)) allocs ->
  forall acc,
    write_allocations kst allocs acc
    = Ok (acc ++ concat (map render (shares_kvs kst allocs))).
Proof.
  induction allocs as [|[dev sl] allocs IH]; intros Hall acc.
  - simpl. rewrite app_nil_r. reflexivity.
  - inversion Hall as [|? ? Hok Hrest]; subst. cbn [fst snd] in Hok.
    cbn [write_allocations]. rewrite (write_slots_text _ _ _ Hok).
    cbn [bind]. rewrite (IH Hrest).
    unfold shares_kvs. cbn [flat_map snd].
    rewrite map_app, concat_app, <- app_assoc. reflexivity.
Qed.

Lemma header_render (r : KernelResourceSpec) :
  header r = concat (map render (header_kvs r)).
Proof.
  unfold header, header_kvs, render. cbn [map concat fst snd].
  rewrite <- !app_assoc, app_nil_r. reflexivity.
Qed.

Lemma write_to_string_text kst (r : KernelResourceSpec) :
  Forall (device_ok kst) (allocations r) ->
  write_to_string kst r
  = Ok (concat (map render (header_kvs r ++ shares_kvs kst (allocations r)))).
Proof.
  intros Hall. unfold write_to_string.
  rewrite write_allocations_text.
  - rewrite header_render, map_app, concat_app. reflexivity.
  - eapply Forall_impl; [|exact Hall].
    intros [dev sl] (_ & _ & _ & Hsl). cbn [fst snd] in *.
    eapply Forall_impl; [|exact Hsl].
    intros sp (Hok & _). exact Hok.
Qed.
End WriteText.

(** ** read_from_string rebuilds the allocations *)

Lemma startswith_app (s p : str) :
  startswith s p = true -> exists t, s = p ++ t.
Proof.
  unfold startswith. intros H. apply str_eqb_eq in H.
  exists (skipn (length p) s). rewrite <- H at 1.
  symmetry. apply firstn_skipn.
Qed.

Lemma family_first_segment (dev slot : str) :
  contains "." dev = false ->
  family_prefix_ok dev slot = true ->
  first_segment slot = dev.
Proof.
  intros Hd Hok. unfold family_prefix_ok in Hok.
  apply orb_true_iff in Hok. destruct Hok as [Hp|He].
  - apply startswith_app in Hp. destruct Hp as [t ->].
    unfold first_segment. rewrite <- app_assoc.
    change (!"." ++ t) with ("."%char :: t).
    rewrite (split_app_sep _ _ _ Hd). reflexivity.
  - apply str_eqb_eq in He. subst slot.
    unfold first_segment. rewrite (split_no_sep _ _ Hd). reflexivity.
Qed.

Section ReadAllocations.
Context {L : Library}.

Lemma parse_entries_pieces kst slot (pda : dict Decimal) :
  Forall (entry_ok kst slot) pda ->
  forall acc log,
    NoDup (keys acc ++ keys pda) ->
    parse_entries kst slot (map (alloc_piece kst slot) pda) acc log
    = Ok (acc ++ pda, log).
Proof.
  induction pda as [|[dev_id alloc] pda IH]; intros Hall acc log Hnd.
  - simpl. rewrite app_nil_r. reflexivity.
  - inversion Hall as [|? ? Hent Hrest]; subst.
    destruct Hent as (Hne & _ & Hcolon & _ & Hfne & _ & _ & Hparse).
    cbn [fst snd] in *.
    cbn [map parse_entries]. rewrite alloc_piece_format. cbn [fst snd].
    rewrite (partition_app_sep _ _ _ Hcolon).
    unfold parse_alloc in Hparse.
    destruct dev_id as [|c d]; [congruence|].
    destruct (format_alloc kst slot alloc) as [|c' a'] eqn:Hf; [congruence|].
    rewrite Hparse.
    assert (Hk : ~ In (c :: d) (keys acc)).
    { intros Hin. apply NoDup_remove_2 in Hnd. apply Hnd.
      apply in_or_app. left. exact Hin. }
    rewrite (dict_set_new _ _ _ Hk), (IH Hrest).
    + rewrite <- app_assoc. reflexivity.
    + rewrite keys_app. simpl. rewrite <- app_assoc. exact Hnd.
Qed.

Lemma piece_no_comma kst slot item :
  entry_ok kst slot item ->
  contains "," (alloc_piece kst slot item) = false.
Proof.
  intros (_ & Hc & _ & _ & _ & Hfc & _).
  rewrite alloc_piece_format, contains_app, contains_cons, Hc, Hfc.
  reflexivity.
Qed.

Lemma parse_entries_value kst slot (pda : dict Decimal) log :
  Forall (entry_ok kst slot) pda ->
  NoDup (keys pda) ->
  parse_entries kst slot
    (split "," (join !"," (map (alloc_piece kst slot) pda))) [] log
  = Ok (pda, log).
Proof.
  intros Hall Hnd. destruct pda as [|item pda].
  - reflexivity.
  - change !"," with [","%char]. rewrite split_join.
    + apply (parse_entries_pieces kst slot _ Hall [] log). exact Hnd.
    + discriminate.
    + apply Forall_map. eapply Forall_impl; [|exact Hall].
      intros a Ha. apply (piece_no_comma _ _ _ Ha).
Qed.

Lemma alloc_set_first (acc : dict (dict (dict Decimal))) dev slot pda :
  ~ In dev (keys acc) ->
  alloc_set acc dev slot pda = acc ++ [(dev, [(slot, pda)])].
Proof.
  intros H. unfold alloc_set.
  rewrite (dict_get_notin _ _ H). apply dict_set_new. exact H.
Qed.

Lemma alloc_set_more (acc : dict (dict (dict Decimal))) dev inner slot pda :
  ~ In dev (keys acc) ->
  ~ In slot (keys inner) ->
  alloc_set (acc ++ [(dev, inner)]) dev slot pda
  = acc ++ [(dev, inner ++ [(slot, pda)])].
Proof.
  intros Hd Hs. unfold alloc_set.
  rewrite (dict_get_last _ _ _ Hd), (dict_set_new _ _ _ Hs).
  apply dict_set_last. exact Hd.
Qed.

(** One [_SHARES] pair, read back. *)
Lemma parse_allocations_step kst dev sp rest allocs log :
  contains "." dev = false ->
  slot_ok kst dev sp ->
  parse_allocations kst (shares_kv kst sp :: rest) allocs log
  = parse_allocations kst rest (alloc_set allocs dev (fst sp) (snd sp)) log.
Proof.
  destruct sp as [slot pda].
  intros Hd (Hok & (Hlow & _ & _ & _ & Hasc) & Hnd & Hents).
  cbn [fst snd] in *.
  unfold shares_kv. cbn [fst snd parse_allocations].
  rewrite endswith_app.
  change 7%nat with (length !"_SHARES").
  rewrite drop_last_app, (lower_upper _ Hasc), Hlow.
  rewrite (family_first_segment _ _ Hd Hok).
  rewrite (parse_entries_value _ _ _ log Hents Hnd). reflexivity.
Qed.

(** The pairs of one device family, once the family is in the dict. *)
Lemma parse_allocations_slots kst dev (sl : dict (dict Decimal)) :
  contains "." dev = false ->
  Forall (slot_ok kst dev) sl ->
  forall rest acc inner log,
    ~ In dev (keys acc) ->
    NoDup (keys inner ++ keys sl) ->
    parse_allocations kst (map (shares_kv kst) sl ++ rest)
                      (acc ++ [(dev, inner)]) log
    = parse_allocations kst rest (acc ++ [(dev, inner ++ sl)]) log.
Proof.
  intros Hd. induction sl as [|sp sl IH]; intros Hall rest acc inner log Hacc Hnd.
  - simpl. rewrite app_nil_r. reflexivity.
  - inversion Hall as [|? ? Hsp Hrest]; subst.
    cbn [map app]. rewrite (parse_allocations_step _ dev _ _ _ _ Hd Hsp).
    assert (Hk : ~ In (fst sp) (keys inner)).
    { intros Hin. apply NoDup_remove_2 in Hnd. apply Hnd.
      apply in_or_app. left. exact Hin. }
    rewrite (alloc_set_more _ _ _ _ _ Hacc Hk).
    rewrite (IH Hrest).
    + rewrite <- app_assoc. destruct sp. reflexivity.
    + exact Hacc.
    + rewrite keys_app. simpl. rewrite <- app_assoc. exact Hnd.
Qed.

Lemma parse_allocations_shares kst (allocs : dict (dict (dict Decimal))) :
  Forall (device_ok kst) allocs ->
  forall acc log,
    NoDup (keys acc ++ keys allocs) ->
    parse_allocations kst (shares_kvs kst allocs) acc log
    = Ok (acc ++ allocs, log).
Proof.
  induction allocs as [|[dev sl] allocs IH]; intros Hall acc log Hnd.
  - simpl. rewrite app_nil_r. reflexivity.
  - inversion Hall as [|? ? Hdev Hrest]; subst.
    destruct Hdev as (Hd & Hne & Hnds & Hsl). cbn [fst snd] in *.
    assert (Hk : ~ In dev (keys acc)).
    { intros Hin. apply NoDup_remove_2 in Hnd. apply Hnd.
      apply in_or_app. left. exact Hin. }
    destruct sl as [|[slot pda] sl]; [congruence|].
    inversion Hsl as [|? ? Hsp Hsl']; subst.
    unfold shares_kvs. cbn [flat_map snd map app].
    rewrite (parse_allocations_step _ dev _ _ _ _ Hd Hsp). cbn [fst snd].
    rewrite (alloc_set_first _ _ _ _ Hk).
    rewrite (parse_allocations_slots kst dev sl Hd Hsl' _ acc
               [(slot, pda)] log Hk).
    + fold (shares_kvs kst allocs). rewrite (IH Hrest).
      * rewrite <- app_assoc. reflexivity.
      * rewrite keys_app. simpl. rewrite <- app_assoc. exact Hnd.
    + exact Hnds.
Qed.
End ReadAllocations.

(** ** The rendered pairs are readable lines with distinct keys *)

Lemma to_upper_head (c : ascii) :
  is_space c = false ->
  exists c' t, to_upper c = c' :: t /\ is_space c' = false.
Proof.
  destruct c as [[] [] [] [] [] [] [] []]; intros H;
    try (vm_compute in H; discriminate H);
    eexists; eexists; split; reflexivity.
Qed.

Lemma eqb_equals_to_upper (c : ascii) :
  contains "=" (to_upper c) = Ascii.eqb "=" c.
Proof. destruct c as [[] [] [] [] [] [] [] []]; reflexivity. Qed.

Lemma eqb_NL_to_upper (c : ascii) :
  contains NL (to_upper c) = Ascii.eqb NL c.
Proof. destruct c as [[] [] [] [] [] [] [] []]; reflexivity. Qed.

Lemma contains_equals_upper (s : str) :
  contains "=" (upper s) = contains "=" s.
Proof.
  induction s as [|c s IH]; [reflexivity|].
  unfold upper in *. cbn [flat_map].
  rewrite contains_app, eqb_equals_to_upper, contains_cons, IH. reflexivity.
Qed.

Lemma contains_NL_upper (s : str) : contains NL (upper s) = contains NL s.
Proof.
  induction s as [|c s IH]; [reflexivity|].
  unfold upper in *. cbn [flat_map].
  rewrite contains_app, eqb_NL_to_upper, contains_cons, IH. reflexivity.
Qed.

Lemma join_contains (c : ascii) (sep : ascii) (l : list str) :
  Ascii.eqb c sep = false ->
  Forall (fun s => contains c s = false) l ->
  contains c (join [sep] l) = false.
Proof.
  intros Hsep. induction l as [|x l IH]; intros Hall; [reflexivity|].
  inversion Hall as [|? ? Hx Hl]; subst.
  destruct l as [|y l]; [exact Hx|].
  change (join [sep] (x :: y :: l)) with (x ++ sep :: join [sep] (y :: l)).
  rewrite contains_app, contains_cons, Hx, Hsep, (IH Hl). reflexivity.
Qed.

Lemma join_rstrip (sep : ascii) (l : list str) :
  is_space sep = false ->
  Forall (fun s => rstrip s = s) l ->
  rstrip (join [sep] l) = join [sep] l.
Proof.
  intros Hsep. induction l as [|x l IH]; intros Hall; [reflexivity|].
  inversion Hall as [|? ? Hx Hl]; subst.
  destruct l as [|y l]; [exact Hx|].
  change (join [sep] (x :: y :: l)) with (x ++ sep :: join [sep] (y :: l)).
  apply rstrip_app; [exact Hsep|apply IH; exact Hl].
Qed.

Lemma Mount_str_rstrip (m : Mount) : rstrip (Mount_str m) = Mount_str m.
Proof.
  unfold Mount_str.
  change (!":" ++ Path_str (target m) ++ !":" ++ MountPermission_value (permission m))
    with (":"%char :: (Path_str (target m)
                         ++ ":"%char :: MountPermission_value (permission m))).
  apply rstrip_app; [reflexivity|].
  apply rstrip_app; [reflexivity|].
  destruct (permission m); reflexivity.
Qed.

Lemma Mount_str_nonempty (m : Mount) : Mount_str m <> [].
Proof.
  unfold Mount_str. destruct (MountSource_str (source m)); discriminate.
Qed.

Section Lines.
Context {L : Library}.

Lemma header_lines kst (r : KernelResourceSpec) :
  survives kst r -> Forall line_ok (header_kvs r).
Proof.
  intros (Hcid & Hsz & _ & Hms & Hjs & _).
  assert (Hm : clean (join !"," (map Mount_str (mounts r)))).
  { split.
    - apply join_contains; [reflexivity|]. apply Forall_map.
      eapply Forall_impl; [|exact Hms]. intros m (_ & H & _). exact H.
    - apply join_rstrip; [reflexivity|]. apply Forall_map.
      apply Forall_forall. intros m _. apply Mount_str_rstrip. }
  unfold header_kvs.
  repeat apply Forall_cons; try apply Forall_nil;
    (split; [discriminate|]; repeat split; try reflexivity; cbn [snd];
     try apply Hcid; try apply Hsz; try apply Hm; try apply Hjs).
Qed.

Lemma piece_clean kst slot (item : str * Decimal) :
  entry_ok kst slot item ->
  contains NL (alloc_piece kst slot item) = false
  /\ rstrip (alloc_piece kst slot item) = alloc_piece kst slot item.
Proof.
  intros (_ & _ & _ & Hn & _ & _ & (Hfn & Hfr) & _).
  rewrite alloc_piece_format. split.
  - rewrite contains_app, contains_cons, Hn, Hfn. reflexivity.
  - apply rstrip_app; [reflexivity|exact Hfr].
Qed.

Lemma lstrip_shares_key (slot : str) :
  lstrip slot = slot ->
  lstrip (upper slot ++ !"_SHARES") = upper slot ++ !"_SHARES".
Proof.
  intros H. apply lstrip_fixed in H.
  destruct slot as [|c slot]; [reflexivity|].
  destruct (to_upper_head c H) as (c' & t & E & Hc').
  unfold upper. cbn [flat_map]. rewrite E. cbn [app].
  apply lstrip_head. exact Hc'.
Qed.

Lemma shares_line_ok kst dev (sp : str * dict Decimal) :
  slot_ok kst dev sp -> line_ok (shares_kv kst sp).
Proof.
  destruct sp as [slot pda].
  intros (_ & (_ & Heq & Hnl & Hls & _) & _ & Hents). cbn [fst snd] in *.
  unfold line_ok, shares_kv. cbn [fst snd].
  split; [destruct (upper slot); discriminate|].
  split; [apply lstrip_shares_key; exact Hls|].
  split; [rewrite contains_app, contains_equals_upper, Heq; reflexivity|].
  split; [rewrite contains_app, contains_NL_upper, Hnl; reflexivity|].
  split.
  - apply join_contains; [reflexivity|]. apply Forall_map.
    eapply Forall_impl; [|exact Hents].
    intros item Hi. apply (piece_clean _ _ _ Hi).
  - apply join_rstrip; [reflexivity|]. apply Forall_map.
    eapply Forall_impl; [|exact Hents].
    intros item Hi. apply (piece_clean _ _ _ Hi).
Qed.

Lemma shares_lines kst (allocs : dict (dict (dict Decimal))) :
  Forall (device_ok kst) allocs -> Forall line_ok (shares_kvs kst allocs).
Proof.
  intros Hall. apply Forall_forall. intros kv Hin.
  unfold shares_kvs in Hin. apply in_flat_map in Hin.
  destruct Hin as ([dev sl] & Hd & Hkv). cbn [snd] in Hkv.
  apply in_map_iff in Hkv. destruct Hkv as (sp & <- & Hsp).
  rewrite Forall_forall in Hall. destruct (Hall _ Hd) as (_ & _ & _ & Hsl).
  rewrite Forall_forall in Hsl. apply (shares_line_ok kst dev), Hsl, Hsp.
Qed.

(** All slot names of the allocations, in order. *)
Lemma shares_keys_back kst (allocs : dict (dict (dict Decimal))) :
  Forall (device_ok kst) allocs ->
  map (fun k => lower (drop_last 7 k)) (keys (shares_kvs kst allocs))
  = flat_map (fun dsl => keys (snd dsl)) allocs.
Proof.
  induction allocs as [|[dev sl] allocs IH]; intros Hall; [reflexivity|].
  inversion Hall as [|? ? Hdev Hrest]; subst.
  unfold shares_kvs. cbn [flat_map snd]. unfold keys at 1.
  rewrite !map_app. f_equal; [|apply (IH Hrest)].
  destruct Hdev as (_ & _ & _ & Hsl). cbn [fst snd] in Hsl.
  clear - Hsl. induction sl as [|[slot pda] sl IHs]; [reflexivity|].
  inversion Hsl as [|? ? Hsp Hsl']; subst.
  destruct Hsp as (_ & (Hlow & _ & _ & _ & Hasc) & _).
  cbn [fst] in Hlow, Hasc.
  cbn [map shares_kv fst snd keys]. rewrite (IHs Hsl').
  change 7%nat with (length !"_SHARES").
  rewrite drop_last_app, (lower_upper _ Hasc), Hlow. reflexivity.
Qed.

Lemma slot_names_family kst (allocs : dict (dict (dict Decimal))) slot :
  Forall (device_ok kst) allocs ->
  In slot (flat_map (fun dsl => keys (snd dsl)) allocs) ->
  In (first_segment slot) (keys allocs).
Proof.
  intros Hall Hin. apply in_flat_map in Hin.
  destruct Hin as ([dev sl] & Hd & Hs). cbn [snd] in Hs.
  rewrite Forall_forall in Hall. destruct (Hall _ Hd) as (Hdot & _ & _ & Hsl).
  cbn [fst snd] in *. apply in_map_iff in Hs. destruct Hs as (sp & <- & Hsp).
  rewrite Forall_forall in Hsl. destruct (Hsl _ Hsp) as (Hok & _).
  rewrite (family_first_segment _ _ Hdot Hok).
  apply in_map_iff. exists (dev, sl). auto.
Qed.

Lemma slot_names_NoDup kst (allocs : dict (dict (dict Decimal))) :
  Forall (device_ok kst) allocs ->
  NoDup (keys allocs) ->
  NoDup (flat_map (fun dsl => keys (snd dsl)) allocs).
Proof.
  induction allocs as [|[dev sl] allocs IH]; intros Hall Hnd; [constructor|].
  inversion Hall as [|? ? Hdev Hrest]; subst.
  cbn [keys map fst] in Hnd. apply NoDup_cons_iff in Hnd. destruct Hnd as [Hk Hnd].
  cbn [flat_map snd]. apply NoDup_app.
  - apply Hdev.
  - apply (IH Hrest Hnd).
  - intros slot Hs Hs'. apply Hk.
    apply (slot_names_family kst _ _ Hrest) in Hs'.
    destruct Hdev as (Hdot & _ & _ & Hsl). cbn [fst snd] in *.
    apply in_map_iff in Hs. destruct Hs as (sp & <- & Hsp).
    rewrite Forall_forall in Hsl. destruct (Hsl _ Hsp) as (Hok & _).
    rewrite (family_first_segment _ _ Hdot Hok) in Hs'. exact Hs'.
Qed.

Lemma shares_keys_suffix kst (allocs : dict (dict (dict Decimal))) k :
  In k (keys (shares_kvs kst allocs)) -> endswith k !"_SHARES" = true.
Proof.
  intros Hin. apply in_map_iff in Hin. destruct Hin as (kv & <- & Hkv).
  apply in_flat_map in Hkv. destruct Hkv as (dsl & _ & Hkv).
  apply in_map_iff in Hkv. destruct Hkv as (sp & <- & _).
  apply endswith_app.
Qed.

Lemma rendered_keys_NoDup kst (r : KernelResourceSpec) :
  survives kst r ->
  NoDup (keys (header_kvs r ++ shares_kvs kst (allocations r))).
Proof.
  intros (_ & _ & _ & _ & _ & _ & Hnd & Hall).
  rewrite keys_app. apply NoDup_app.
  - unfold header_kvs. cbn [keys map fst].
    repeat constructor; cbn [In];
      intros H; repeat destruct H as [H|H]; try discriminate H; exact H.
  - apply NoDup_map_inv with (f := fun k => lower (drop_last 7 k)).
    rewrite (shares_keys_back _ _ Hall).
    apply (slot_names_NoDup kst _ Hall Hnd).
  - intros k Hk Hk'. apply shares_keys_suffix in Hk'.
    unfold header_kvs in Hk. cbn [keys map fst In] in Hk.
    repeat destruct Hk as [Hk|Hk]; try (subst k; discriminate Hk'); exact Hk.
Qed.
End Lines.

(** ** Round trip *)

Section RoundTrip.
Context {L : Library}.

Lemma parse_mounts_map (ms : list Mount) :
  Forall mount_ok ms -> parse_mounts (map Mount_str ms) = Ok ms.
Proof.
  induction ms as [|m ms IH]; intros Hall; [reflexivity|].
  inversion Hall as [|? ? Hm Hrest]; subst.
  destruct Hm as (_ & _ & Hfrom).
  cbn [map parse_mounts].
  destruct (str_eqb (Mount_str m) []) eqn:E.
  - apply str_eqb_eq in E. destruct (Mount_str_nonempty _ E).
  - rewrite Hfrom. cbn [bind]. rewrite (IH Hrest). reflexivity.
Qed.

Lemma parse_mounts_render (ms : list Mount) :
  Forall mount_ok ms ->
  parse_mounts (split "," (join !"," (map Mount_str ms))) = Ok ms.
Proof.
  intros Hall. destruct ms as [|m ms]; [reflexivity|].
  change !"," with [","%char]. rewrite split_join.
  - apply parse_mounts_map. exact Hall.
  - discriminate.
  - apply Forall_map. eapply Forall_impl; [|exact Hall].
    intros x (H & _). exact H.
Qed.

Lemma header_allocations kst (r : KernelResourceSpec) rest allocs log :
  parse_allocations kst (header_kvs r ++ rest) allocs log
  = parse_allocations kst rest allocs log.
Proof. reflexivity. Qed.

Lemma header_get (r : KernelResourceSpec) rest :
  dict_get !"CID" (header_kvs r ++ rest) = Some (container_id r)
  /\ dict_item (header_kvs r ++ rest) !"SCRATCH_SIZE"
     = Ok (BinarySize_format_m (scratch_disk_size r))
  /\ dict_item (header_kvs r ++ rest) !"MOUNTS"
     = Ok (join !"," (map Mount_str (mounts r)))
  /\ dict_item (header_kvs r ++ rest) !"SLOTS" = Ok (json_dumps (slots r)).
Proof. repeat split; reflexivity. Qed.

Lemma read_rendered kst (r : KernelResourceSpec) :
  survives kst r ->
  read_from_kvpairs kst (header_kvs r ++ shares_kvs kst (allocations r))
  = Ok (r, []).
Proof.
  intros Hsurv.
  pose proof Hsurv as (_ & _ & Hsz & Hms & _ & Hjs & Hnd & Hall).
  unfold read_from_kvpairs.
  rewrite header_allocations.
  rewrite (parse_allocations_shares kst _ Hall [] [] Hnd).
  destruct (header_get r (shares_kvs kst (allocations r)))
    as (Hc & Hs & Hm & Hj).
  rewrite Hc, Hs, Hm, Hj. cbn [bind].
  rewrite (parse_mounts_render _ Hms). cbn [bind].
  rewrite Hsz. cbn [bind]. rewrite Hjs. cbn [bind fst snd app].
  destruct r. reflexivity.
Qed.

(** A record that [survives] is written, and reading the text gives the
    same record and logs nothing. *)
Lemma round_trip kst (r : KernelResourceSpec) :
  survives kst r ->
  exists text,
    write_to_string kst r = Ok text
    /\ read_from_string_log kst text = Ok (r, []).
Proof.
  intros Hsurv.
  pose proof Hsurv as (_ & _ & _ & _ & _ & _ & _ & Hall).
  exists (concat (map render (header_kvs r ++ shares_kvs kst (allocations r)))).
  split; [apply write_to_string_text; exact Hall|].
  unfold read_from_string_log. rewrite parse_kvpairs_render.
  - apply read_rendered. exact Hsurv.
  - apply Forall_app. split.
    + apply (header_lines kst). exact Hsurv.
    + apply shares_lines. exact Hall.
  - apply rendered_keys_NoDup. exact Hsurv.
Qed.

(** C1, amended. A record is written and read back equal in every field
    when it [survives]: the container id has no line break and no trailing
    whitespace; the renderings of the scratch size and of the requested
    slots are such values too and are read back by their parsers; every
    mount is read back from its string, which has no comma and no line
    break; the device families are distinct, have no dot and have at least
    one slot each; every slot name is an ASCII string that carries its
    family prefix, is in lower case, has no [=], no line break and no
    leading whitespace; every device id is non-empty without comma, colon or
    line break; and every amount is read back from its rendering, which is
    non-empty without comma, line break or trailing whitespace.  Whitespace
    is what [str.strip()] removes. *)
Theorem read_write_round_trip kst (r : KernelResourceSpec) :
  survives kst r ->
  exists text,
    write_to_string kst r = Ok text
    /\ read_from_string kst text = Ok r.
Proof.
  intros Hsurv. destruct (round_trip kst r Hsurv) as (text & Hw & Hr).
  exists text. split; [exact Hw|].
  unfold read_from_string. rewrite Hr. reflexivity.
Qed.
End RoundTrip.

(** ** Slot names outside the registry *)

(** C2, as the code behaves. With [tpu] absent from the registry, the line
    [TPU_SHARES=0:2] is read as a plain decimal: the entry is kept and no
    warning is logged.  When the amount of such a line is in binary-size
    form, the whole read raises. *)
Theorem read_from_string_unknown_slot :
  dict_get !"tpu" [(!"cpu", !"count")] = None
  /\ read_from_string_log [(!"cpu", !"count")] !"CID=abc
SCRATCH_SIZE=1m
MOUNTS=
SLOTS={}
CPU_SHARES=0:1
TPU_SHARES=0:2
"
     = Ok (mkSpec !"abc" []
                  [(!"cpu", [(!"cpu", [(!"0", 1)])]);
                   (!"tpu", [(!"tpu", [(!"0", 2)])])]
                  (2 ^ 20) [],
           [])
  /\ read_from_string [(!"cpu", !"count")] !"CID=abc
SCRATCH_SIZE=1m
MOUNTS=
SLOTS={}
CPU_SHARES=0:1
TPU_SHARES=0:2g
"
     = Raise InvalidOperation.
Proof. repeat split. Qed.

(** ** The round trip as the specification states it *)

(** C1, as stated, fails: the slot name [CUDA] is in the registry, and the
    record read back files the amount under [cuda]. *)
Lemma round_trip_upper_case :
  slots_known [(!"CUDA", !"count")] upper_case_spec
  /\ write_to_string [(!"CUDA", !"count")] upper_case_spec
     = Ok !"CID=abc
SCRATCH_SIZE=0m
MOUNTS=
SLOTS={}
CUDA_SHARES=0:1
"
  /\ read_from_string [(!"CUDA", !"count")] !"CID=abc
SCRATCH_SIZE=0m
MOUNTS=
SLOTS={}
CUDA_SHARES=0:1
"
     = Ok (mkSpec !"abc" [] [(!"cuda", [(!"cuda", [(!"0", 1)])])] 0 [])
  /\ ~ spec_eq (mkSpec !"abc" [] [(!"cuda", [(!"cuda", [(!"0", 1)])])] 0 [])
               upper_case_spec.
Proof.
  split; [|split; [|split]].
  - intros dev sl slot pda [E|[]] Hs. inversion E; subst.
    destruct Hs as [E'|[]]. inversion E'; subst. discriminate.
  - reflexivity.
  - reflexivity.
  - intros (_ & _ & H & _). specialize (H !"CUDA"). exact H.
Qed.

Ltac evaluate_survives :=
  repeat match goal with
         | |- _ /\ _ => split
         | |- Forall _ _ => constructor
         | |- NoDup _ =>
             repeat constructor; cbn [In keys map fst];
             intros H; repeat destruct H as [H|H]; (discriminate H || exact H)
         | |- _ <> _ => discriminate
         | |- _ = _ => reflexivity
         | |- survives _ _ => unfold survives
         | |- clean _ => unfold clean
         | |- device_ok _ _ => unfold device_ok
         | |- slot_ok _ _ _ => unfold slot_ok
         | |- slot_name_ok _ => unfold slot_name_ok
         | |- entry_ok _ _ _ => unfold entry_ok
         | |- mount_ok _ => unfold mount_ok
         end.

(** The witness takes the record of the end-to-end scenario. *)
Lemma read_write_round_trip_witness :
  exists text,
    write_to_string example_registry example_spec = Ok text
    /\ read_from_string example_registry text = Ok example_spec.
Proof.
  apply (read_write_round_trip (L := model)). evaluate_survives.
Defined.

(** ** Reading from a file *)

Lemma fold_parse_line_blank (lines : list str) (acc : dict str) :
  fold_left parse_line ([] :: lines) acc = fold_left parse_line lines acc.
Proof. reflexivity. Qed.

Lemma split_cons_NL (s : str) : split NL (NL :: s) = [] :: split NL s.
Proof. reflexivity. Qed.

Lemma split_cons_other (c : ascii) (s : str) :
  Ascii.eqb c NL = false ->
  exists h t, split NL s = h :: t /\ split NL (c :: s) = (c :: h) :: t.
Proof.
  intros Hc. cbn [split]. rewrite Hc.
  destruct (split NL s) as [|h t] eqn:E.
  - destruct (split_nonempty _ _ E).
  - exists h, t. auto.
Qed.

(** The lines that [read_from_file] hands to the parser are the lines of the
    content with empty lines in between. *)
Lemma readlines_lines (content : str) :
  forall acc,
    fold_left parse_line (split NL (join [NL] (readlines content))) acc
    = fold_left parse_line (split NL content) acc.
Proof.
  assert (Hgen : forall content,
             (readlines content = [] /\ content = [])
             \/ exists line lines h t h' t',
                 readlines content = line :: lines
                 /\ split NL (join [NL] (readlines content)) = h :: t
                 /\ split NL content = h' :: t'
                 /\ h = h'
                 /\ forall acc, fold_left parse_line t acc
                                = fold_left parse_line t' acc).
  { clear. induction content as [|c rest IH]; [left; auto|].
    right. cbn [readlines].
    destruct (Ascii.eqb c NL) eqn:Hc.
    - apply Ascii.eqb_eq in Hc. subst c.
      destruct IH as [[Hr ->]|(line & lines & h & t & h' & t' & Hr & Hs & Hs' & Hh & Ht)].
      + exists [NL], [], [], [[]], [], [[]]. repeat split.
      + rewrite Hr in *.
        exists [NL], (line :: lines), [], ([] :: h :: t), [], (h' :: t').
        split; [reflexivity|]. split.
        * change (join [NL] ([NL] :: line :: lines))
            with (NL :: NL :: join [NL] (line :: lines)).
          rewrite !split_cons_NL, Hs. reflexivity.
        * split; [rewrite split_cons_NL, Hs'; reflexivity|].
          split; [reflexivity|]. intros acc. rewrite fold_parse_line_blank.
          subst h'. cbn [fold_left]. apply Ht.
    - destruct IH as [[Hr ->]|(line & lines & h & t & h' & t' & Hr & Hs & Hs' & Hh & Ht)].
      + rewrite Hr. exists [c], [], [c], [], [c], [].
        cbn [join split]. rewrite Hc. repeat split.
      + rewrite Hr in *.
        destruct (split_cons_other c rest Hc) as (h1 & t1 & E1 & E2).
        rewrite Hs' in E1. inversion E1; subst h1 t1.
        assert (Hj : join [NL] ((c :: line) :: lines)
                     = c :: join [NL] (line :: lines)).
        { destruct lines; reflexivity. }
        destruct (split_cons_other c (join [NL] (line :: lines)) Hc)
          as (h2 & t2 & E3 & E4).
        rewrite Hs in E3. inversion E3; subst h2 t2.
        exists (c :: line), lines, (c :: h), t, (c :: h'), t'.
        rewrite Hj. repeat split; try assumption.
        congruence. }
  intros acc.
  destruct (Hgen content)
    as [[Hr ->]|(line & lines & h & t & h' & t' & Hr & Hs & Hs' & Hh & Ht)].
  - rewrite Hr. reflexivity.
  - rewrite Hs, Hs'. subst h'. cbn [fold_left]. apply Ht.
Qed.

Lemma read_from_file_string {L : Library} (kst : dict str) (content : str) :
  read_from_file kst content = read_from_string kst content.
Proof.
  unfold read_from_file, read_from_string, read_from_string_log, parse_kvpairs.
  rewrite readlines_lines. reflexivity.
Qed.

(** X1. [read_from_file] joins the lines of the file, which keep their line
    breaks, with further line breaks; the empty lines this adds are skipped,
    so the result is that of [read_from_string] on the content, whatever the
    content: the same record, or the same exception. *)
Theorem read_from_file_content {L : Library} (kst : dict str) (content : str) :
  read_from_file kst content = read_from_string kst content
  /\ parse_kvpairs (join [NL] (readlines content)) = parse_kvpairs content.
Proof.
  split; [apply read_from_file_string|].
  unfold parse_kvpairs. apply readlines_lines.
Qed.

Lemma stored_read_back (linesep : str) (text : str) :
  In linesep [[NL]; [CR; NL]] ->
  contains CR text = false ->
  universal_newlines (stored linesep text) = text.
Proof.
  intros Hsep. induction text as [|c text IH]; [reflexivity|].
  rewrite contains_cons. intros H. apply orb_false_iff in H.
  destruct H as [Hc Ht]. rewrite Ascii.eqb_sym in Hc.
  unfold stored in *. cbn [flat_map].
  destruct (Ascii.eqb c NL) eqn:En.
  - apply Ascii.eqb_eq in En. subst c.
    destruct Hsep as [<-|[<-|[]]]; cbn [app universal_newlines].
    + rewrite Hc, (IH Ht). reflexivity.
    + rewrite Ascii.eqb_refl. cbn [universal_newlines].
      change (Ascii.eqb CR CR) with true. cbn iota.
      rewrite (IH Ht). reflexivity.
  - cbn [app universal_newlines]. rewrite Hc, (IH Ht). reflexivity.
Qed.

(** X2. A record that survives the text form and whose rendered lines are
    ASCII (so that the encoding of the file plays no part) without a carriage
    return, written by [write_to_file] to an empty text file, is returned by
    [read_from_file] on that file, read in the default mode, whether the
    platform stores a line break as LF or as CR LF. *)
Theorem write_read_file {L : Library} (kst : dict str) (r : KernelResourceSpec)
        (linesep : str) :
  survives kst r ->
  In linesep [[NL]; [CR; NL]] ->
  is_ascii (concat (map render (header_kvs r
                                  ++ shares_kvs kst (allocations r))))
  = true ->
  contains CR (concat (map render (header_kvs r
                                     ++ shares_kvs kst (allocations r))))
  = false ->
  exists file,
    write_to_file kst r [] = Ok file
    /\ read_from_file kst (universal_newlines (stored linesep file)) = Ok r.
Proof.
  intros Hsurv Hsep _ Hcr.
  destruct (round_trip kst r Hsurv) as (text & Hw & Hr).
  pose proof Hsurv as (_ & _ & _ & _ & _ & _ & _ & Hall).
  pose proof (write_to_string_text _ _ Hall) as Htext.
  assert (Hcr' : contains CR text = false).
  { assert (E : text = concat (map render
                         (header_kvs r ++ shares_kvs kst (allocations r))))
      by congruence.
    rewrite E. exact Hcr. }
  exists text. unfold write_to_file. rewrite Hw. cbn [bind app].
  split; [reflexivity|].
  rewrite (stored_read_back _ _ Hsep Hcr'), read_from_file_string.
  unfold read_from_string. rewrite Hr. reflexivity.
Qed.

(** The witness takes the record of the end-to-end scenario on a platform
    that stores CR LF. *)
Lemma write_read_file_witness :
  exists file,
    write_to_file example_registry example_spec [] = Ok file
    /\ read_from_file example_registry
                      (universal_newlines (stored [CR; NL] file))
       = Ok example_spec.
Proof.
  apply (write_read_file (L := model)).
  - evaluate_survives.
  - right. left. reflexivity.
  - reflexivity.
  - reflexivity.
Defined.

(** ** Mount strings *)

Lemma path_root_relative (c : ascii) (s : str) :
  Ascii.eqb c "/" = false -> path_root (c :: s) = [].
Proof.
  destruct c as [[] [] [] [] [] [] [] []]; intros H;
    try reflexivity; discriminate H.
Qed.

Lemma path_root_one (c : ascii) (s : str) :
  Ascii.eqb c "/" = false -> path_root ("/"%char :: c :: s) = !"/".
Proof.
  destruct c as [[] [] [] [] [] [] [] []]; intros H;
    try reflexivity; discriminate H.
Qed.

Lemma path_root_two (c : ascii) (s : str) :
  Ascii.eqb c "/" = false ->
  path_root ("/"%char :: "/"%char :: c :: s) = !"//".
Proof.
  destruct c as [[] [] [] [] [] [] [] []]; intros H;
    try reflexivity; discriminate H.
Qed.

Lemma segment_head (x : str) :
  segment_ok x -> exists c t, x = c :: t /\ Ascii.eqb c "/" = false.
Proof.
  intros (Hne & _ & Hs). destruct x as [|c t]; [congruence|].
  exists c, t. split; [reflexivity|].
  rewrite contains_cons in Hs. apply orb_false_iff in Hs.
  rewrite Ascii.eqb_sym. apply Hs.
Qed.

Lemma filter_segments (l : list str) :
  Forall segment_ok l -> filter keep_segment l = l.
Proof.
  induction l as [|x l IH]; intros Hall; [reflexivity|].
  inversion Hall as [|? ? (Hne & Hdot & _) Hl]; subst.
  assert (Hk : keep_segment x = true).
  { unfold keep_segment. apply str_eqb_neq in Hne. apply str_eqb_neq in Hdot.
    rewrite Hne, Hdot. reflexivity. }
  cbn [filter]. rewrite Hk, (IH Hl). reflexivity.
Qed.

Lemma split_segments (l : list str) :
  l <> [] -> Forall segment_ok l -> split "/" (join !"/" l) = l.
Proof.
  intros Hne Hall. change !"/" with ["/"%char]. apply split_join; [exact Hne|].
  eapply Forall_impl; [|exact Hall]. intros x (_ & _ & H). exact H.
Qed.

Lemma join_head (x : str) (l : list str) (c : ascii) (t : str) :
  x = c :: t -> exists rest, join !"/" (x :: l) = c :: rest.
Proof. intros ->. destruct l; eexists; reflexivity. Qed.

Lemma Path_str_cons (r x : str) (t : list str) :
  Path_str (mkPath r (x :: t)) = r ++ join !"/" (x :: t).
Proof. unfold Path_str. cbn [root tail]. destruct r; reflexivity. Qed.

Lemma Path_round_trip (p : Path) : Path_ok p -> Path_of_str (Path_str p) = p.
Proof.
  destruct p as [r t]. intros (Hr & Ht). cbn [root tail] in *.
  destruct t as [|x t].
  - destruct Hr as [->|[->| ->]]; reflexivity.
  - unfold Path_of_str. rewrite Path_str_cons.
    assert (Hx : segment_ok x) by (inversion Ht; assumption).
    destruct (segment_head _ Hx) as (c & x' & Ex & Hc).
    destruct (join_head x t c x' Ex) as (rest & Hj).
    pose proof (split_segments (x :: t) ltac:(discriminate) Ht) as Hsp.
    destruct Hr as [->|[->| ->]].
    + cbn [app]. rewrite Hsp, (filter_segments _ Ht).
      rewrite Hj, (path_root_relative _ _ Hc). reflexivity.
    + change (!"/" ++ join !"/" (x :: t))
        with ("/"%char :: join !"/" (x :: t)).
      f_equal.
      * rewrite Hj. apply path_root_one. exact Hc.
      * change (split "/" ("/"%char :: join !"/" (x :: t)))
          with ([] :: split "/" (join !"/" (x :: t))).
        rewrite Hsp. cbn [filter]. apply (filter_segments _ Ht).
    + change (!"//" ++ join !"/" (x :: t))
        with ("/"%char :: "/"%char :: join !"/" (x :: t)).
      f_equal.
      * rewrite Hj. apply path_root_two. exact Hc.
      * change (split "/" ("/"%char :: "/"%char :: join !"/" (x :: t)))
          with ([] :: [] :: split "/" (join !"/" (x :: t))).
        rewrite Hsp. cbn [filter]. apply (filter_segments _ Ht).
Qed.

Lemma Path_str_no_colon (p : Path) :
  Path_ok p -> no_colon p -> contains ":" (Path_str p) = false.
Proof.
  destruct p as [r t]. intros (Hr & _) Hc. cbn [root tail] in *.
  unfold no_colon in Hc. cbn [tail] in Hc.
  assert (Hj : contains ":" (join !"/" t) = false).
  { change !"/" with ["/"%char]. apply join_contains; [reflexivity|exact Hc]. }
  destruct t as [|x t].
  - destruct Hr as [->|[->| ->]]; reflexivity.
  - rewrite Path_str_cons, contains_app, Hj.
    destruct Hr as [->|[->| ->]]; reflexivity.
Qed.

Lemma MountPermission_round_trip (p : MountPermission) :
  MountPermission_of_value (MountPermission_value p) = Ok p
  /\ contains ":" (MountPermission_value p) = false.
Proof. destruct p; split; reflexivity. Qed.

Lemma Mount_str_split (m : Mount) :
  contains ":" (MountSource_str (source m)) = false ->
  contains ":" (Path_str (target m)) = false ->
  split ":" (Mount_str m)
  = [MountSource_str (source m); Path_str (target m);
     MountPermission_value (permission m)].
Proof.
  intros Hs Ht. unfold Mount_str.
  change (!":" ++ Path_str (target m) ++ !":" ++ MountPermission_value (permission m))
    with (":"%char :: (Path_str (target m)
                         ++ ":"%char :: MountPermission_value (permission m))).
  rewrite (split_app_sep _ _ _ Hs), (split_app_sep _ _ _ Ht).
  rewrite split_no_sep; [reflexivity|].
  apply MountPermission_round_trip.
Qed.

Lemma Mount_canonical_round_trip (m : Mount) :
  Mount_canonical m -> Mount_from_str (Mount_str m) = Ok m.
Proof.
  destruct m as [ty src tgt perm op].
  intros (Hop & Htok & Htc & Hta & Hsrc). cbn [opts target type source] in *.
  subst op.
  assert (Htgt : contains ":" (Path_str tgt) = false)
    by (apply Path_str_no_colon; assumption).
  destruct ty, src as [p|name|]; try contradiction.
  - destruct Hsrc as (Hpok & Hpc & Hpa).
    assert (Hs : contains ":" (Path_str p) = false)
      by (apply Path_str_no_colon; assumption).
    rewrite (Mount_from_str_three _ _ _ _
               (Mount_str_split (mkMount BIND (SourcePath p) tgt perm None) Hs Htgt)).
    cbn [MountSource_str source target permission].
    rewrite (Path_round_trip _ Hpok), (Path_round_trip _ Htok), Hpa, Hta.
    cbn [negb bind fst snd].
    rewrite (proj1 (MountPermission_round_trip perm)). reflexivity.
  - destruct Hsrc as (Hseg & Hnc).
    rewrite (Mount_from_str_three _ _ _ _
               (Mount_str_split (mkMount VOLUME (SourceName name) tgt perm None)
                                Hnc Htgt)).
    cbn [MountSource_str source target permission].
    assert (Hp : Path_of_str name = mkPath [] [name]).
    { apply (Path_round_trip (mkPath [] [name])).
      split; [left; reflexivity|]. constructor; [exact Hseg|constructor]. }
    rewrite Hp, (Path_round_trip _ Htok), Hta.
    rewrite (proj1 (MountPermission_round_trip perm)). reflexivity.
Qed.

(** X3. A mount in canonical form is read back from its string:
    [Mount.from_str(str(m))] returns [m].  Canonical means: no options, an
    absolute target, an absolute path as the source of a BIND mount and a
    single segment as the source of a VOLUME mount, and no colon in any
    segment. *)
Theorem Mount_str_round_trip (m : Mount) :
  Mount_canonical m -> Mount_from_str (Mount_str m) = Ok m.
Proof. exact (Mount_canonical_round_trip m). Qed.

(** The witness takes a read-write bind mount of [/data]. *)
Lemma Mount_str_round_trip_witness :
  let m := mkMount BIND (SourcePath (mkPath !"/" [!"data"]))
                   (mkPath !"//" [!"work"; !"space"]) READ_WRITE None in
  Mount_from_str (Mount_str m) = Ok m.
Proof.
  apply Mount_str_round_trip.
  unfold Mount_canonical, Path_ok, no_colon, segment_ok, is_absolute.
  cbn [opts target type source root tail].
  repeat match goal with
         | |- _ /\ _ => split
         | |- Forall _ _ => constructor
         | |- _ <> _ => discriminate
         | |- _ = _ => reflexivity
         | |- _ \/ _ => first [left; reflexivity | right]
         end.
Defined.

Lemma split_parts_no_sep (c : ascii) (s y : str) :
  In y (split c s) -> contains c y = false.
Proof.
  revert y. induction s as [|x s IH]; intros y.
  - intros [<-|[]]. reflexivity.
  - cbn [split]. destruct (Ascii.eqb x c) eqn:Hx.
    + intros [<-|Hin]; [reflexivity|apply IH; exact Hin].
    + destruct (split c s) as [|h t] eqn:E.
      * intros [<-|[]]. rewrite contains_cons, Ascii.eqb_sym, Hx. reflexivity.
      * intros [<-|Hin].
        -- rewrite contains_cons, Ascii.eqb_sym, Hx. apply IH. left. reflexivity.
        -- apply IH. right. exact Hin.
Qed.

Lemma split_parts_sub (c d : ascii) (s y : str) :
  contains d s = false -> In y (split c s) -> contains d y = false.
Proof.
  revert y. induction s as [|x s IH]; intros y Hd.
  - intros [<-|[]]. reflexivity.
  - rewrite contains_cons in Hd. apply orb_false_iff in Hd. destruct Hd as [Hx Hs].
    cbn [split]. destruct (Ascii.eqb x c).
    + intros [<-|Hin]; [reflexivity|apply (IH _ Hs); exact Hin].
    + destruct (split c s) as [|h t] eqn:E.
      * intros [<-|[]]. rewrite contains_cons, Hx. reflexivity.
      * intros [<-|Hin].
        -- rewrite contains_cons, Hx. apply (IH _ Hs). left. reflexivity.
        -- apply (IH _ Hs). right. exact Hin.
Qed.

Lemma path_root_cases (s : str) :
  path_root s = [] \/ path_root s = !"/" \/ path_root s = !"//".
Proof.
  destruct s as [|a s]; [left; reflexivity|].
  destruct (Ascii.eqb a "/") eqn:Ha;
    [|left; apply path_root_relative; exact Ha].
  apply Ascii.eqb_eq in Ha. subst a.
  destruct s as [|b s]; [right; left; reflexivity|].
  destruct (Ascii.eqb b "/") eqn:Hb;
    [|right; left; apply path_root_one; exact Hb].
  apply Ascii.eqb_eq in Hb. subst b.
  destruct s as [|c s]; [right; right; reflexivity|].
  destruct (Ascii.eqb c "/") eqn:Hc;
    [|right; right; apply path_root_two; exact Hc].
  apply Ascii.eqb_eq in Hc. subst c. right. left. reflexivity.
Qed.

Lemma Path_of_str_ok (s : str) : Path_ok (Path_of_str s).
Proof.
  split; [apply path_root_cases|].
  cbn [Path_of_str tail]. apply Forall_forall. intros x Hx.
  apply filter_In in Hx. destruct Hx as [Hin Hk].
  unfold keep_segment in Hk. apply andb_true_iff in Hk. destruct Hk as [H1 H2].
  apply negb_true_iff in H1. apply negb_true_iff in H2.
  apply str_eqb_neq in H1. apply str_eqb_neq in H2.
  split; [exact H1|]. split; [exact H2|].
  apply (split_parts_no_sep _ _ _ Hin).
Qed.

Lemma Path_of_str_no_colon (s : str) :
  contains ":" s = false -> no_colon (Path_of_str s).
Proof.
  intros Hs. unfold no_colon. cbn [Path_of_str tail].
  apply Forall_forall. intros x Hx. apply filter_In in Hx.
  apply (split_parts_sub "/" ":" s x Hs), Hx.
Qed.

Lemma Mount_from_str_canonical (s : str) (m : Mount) :
  Mount_from_str s = Ok m -> Mount_canonical m.
Proof.
  intros H. unfold Mount_from_str in H.
  destruct (split ":" s) as [|a [|b [|c [|d l]]]] eqn:Hs; try discriminate H.
  assert (Ha : contains ":" a = false).
  { apply (split_parts_no_sep ":" s). rewrite Hs. left. reflexivity. }
  assert (Hb : contains ":" b = false).
  { apply (split_parts_no_sep ":" s). rewrite Hs. right. left. reflexivity. }
  pose proof (Path_of_str_ok a) as Hpa. pose proof (Path_of_str_ok b) as Hpb.
  pose proof (Path_of_str_no_colon a Ha) as Hca.
  pose proof (Path_of_str_no_colon b Hb) as Hcb.
  destruct (is_absolute (Path_of_str a)) eqn:Eabs; cbn [negb] in H.
  - cbn [bind fst snd] in H.
    destruct (is_absolute (Path_of_str b)) eqn:Ebabs; cbn [negb] in H;
      [|discriminate H].
    destruct (MountPermission_of_value c) as [p|e]; [|discriminate H].
    cbn [bind] in H. inversion H; subst m.
    unfold Mount_canonical. cbn [opts target type source].
    repeat split; assumption || apply Hpa || apply Hpb.
  - destruct (length (parts (Path_of_str a)) =? 1)%nat eqn:El;
      [|discriminate H].
    cbn [bind fst snd] in H.
    destruct (is_absolute (Path_of_str b)) eqn:Ebabs; cbn [negb] in H;
      [|discriminate H].
    destruct (MountPermission_of_value c) as [p|e]; [|discriminate H].
    cbn [bind] in H. inversion H; subst m.
    unfold Mount_canonical. cbn [opts target type source].
    split; [reflexivity|]. split; [exact Hpb|]. split; [exact Hcb|].
    split; [exact Ebabs|].
    apply Nat.eqb_eq in El. unfold parts in El. rewrite Eabs in El.
    unfold is_absolute in Eabs. apply negb_false_iff, str_eqb_eq in Eabs.
    destruct Hpa as [_ Hsegs]. unfold no_colon in Hca.
    destruct (Path_of_str a) as [r t]. cbn [root tail] in *. subst r.
    destruct t as [|x [|y t]]; try discriminate El.
    inversion Hsegs; subst. inversion Hca; subst.
    unfold Path_str. cbn [root tail join app]. split; assumption.
Qed.

(** X4. Every mount that [Mount.from_str] returns is in canonical form, and
    is a fixed point of rendering and reading: [Mount.from_str(str(m))]
    returns [m] again. *)
Theorem Mount_from_str_fixed_point (s : str) (m : Mount) :
  Mount_from_str s = Ok m ->
  Mount_canonical m /\ Mount_from_str (Mount_str m) = Ok m.
Proof.
  intros H. pose proof (Mount_from_str_canonical s m H) as Hc.
  split; [exact Hc|]. apply Mount_canonical_round_trip. exact Hc.
Qed.

(** The witness reads a string whose paths are not in normal form. *)
Lemma Mount_from_str_fixed_point_witness :
  let m := mkMount VOLUME (SourceName !"myvol")
                   (mkPath !"/" [!"work"; !"space"]) READ_ONLY None in
  Mount_canonical m /\ Mount_from_str (Mount_str m) = Ok m.
Proof.
  apply (Mount_from_str_fixed_point !"./myvol/:/work//space/.:ro").
  reflexivity.
Defined.

(** ** bitmask2set: order and bounds *)

Lemma bitmask2set_loop_sorted (fuel : nat) :
  forall mask bpos bset s,
    bitmask2set_loop fuel mask bpos bset = Some s ->
    exists l, s = bset ++ l
              /\ StronglySorted Z.lt l
              /\ Forall (fun i => bpos <= i) l.
Proof.
  induction fuel as [|fuel IH]; intros mask bpos bset s; [discriminate|].
  cbn [bitmask2set_loop]. destruct (mask >? 0).
  - intros H. apply IH in H. destruct H as (l & -> & Hs & Hb).
    assert (Hb' : Forall (fun i => bpos <= i) l).
    { eapply Forall_impl; [|exact Hb]. intros i Hi. cbn beta in Hi. lia. }
    destruct (Z.land mask 1 =? 1).
    + exists (bpos :: l). rewrite <- app_assoc. split; [reflexivity|].
      split.
      * constructor; [exact Hs|].
        eapply Forall_impl; [|exact Hb]. intros i Hi. cbn beta in Hi. lia.
      * constructor; [lia|exact Hb'].
    + exists l. auto.
  - intros H. inversion H. exists []. rewrite app_nil_r.
    split; [reflexivity|]. split; constructor.
Qed.

Lemma StronglySorted_lt_NoDup (l : list Z) : StronglySorted Z.lt l -> NoDup l.
Proof.
  induction 1 as [|a l Hs IH Ha]; constructor; [|exact IH].
  intros Hin. rewrite Forall_forall in Ha. specialize (Ha _ Hin). lia.
Qed.

(** X5. A mask that is zero or negative gives the empty set.  For every
    mask, the positions that [bitmask2set] collects are in strictly
    increasing order, so none is repeated and the set has as many elements
    as the loop appended; each lies between 0 and the position of the highest
    bit of the mask. *)
Theorem bitmask2set_order :
  (forall mask, mask <= 0 -> bitmask2set mask = Some [])
  /\ (forall mask s,
         bitmask2set mask = Some s ->
         StronglySorted Z.lt s /\ NoDup s
         /\ Forall (fun i => 0 <= i <= Z.log2 mask) s).
Proof.
  split.
  - intros mask Hm. unfold bitmask2set. cbn [bitmask2set_loop].
    destruct (mask >? 0) eqn:E; [apply Z.gtb_lt in E; lia|reflexivity].
  - intros mask s H. unfold bitmask2set in H.
    pose proof (bitmask2set_loop_sorted _ _ _ _ _ H) as (l & -> & Hs & Hb).
    cbn [app] in *. split; [exact Hs|].
    split; [apply StronglySorted_lt_NoDup; exact Hs|].
    apply Forall_forall. intros i Hi.
    rewrite Forall_forall in Hb. specialize (Hb _ Hi). cbn beta in Hb.
    split; [exact Hb|].
    destruct (Z_le_gt_dec mask 0) as [Hle|Hgt].
    + cbn [bitmask2set_loop] in H.
      destruct (mask >? 0) eqn:E; [apply Z.gtb_lt in E; lia|].
      inversion H; subst l. destruct Hi.
    + assert (Hlt : mask < 2 ^ Z.of_nat (Z.to_nat (Z.log2 mask + 1))).
      { pose proof (Z.log2_nonneg mask). rewrite Z2Nat.id by lia.
        replace (Z.log2 mask + 1) with (Z.succ (Z.log2 mask)) by lia.
        apply Z.log2_spec. lia. }
      destruct (bitmask2set_loop_spec _ mask 0 [] Hlt) as (s' & Hs' & Hin).
      rewrite H in Hs'. inversion Hs'; subst s'.
      apply Hin in Hi. destruct Hi as [[]|(_ & Ht & _)].
      rewrite Z.sub_0_r in Ht.
      destruct (Z_le_gt_dec i (Z.log2 mask)) as [Hok|Hbig]; [exact Hok|].
      rewrite Z.bits_above_log2 in Ht by lia. discriminate Ht.
Qed.

(** The witness takes the mask [0b1011]. *)
Lemma bitmask2set_order_witness :
  StronglySorted Z.lt [0; 1; 3] /\ NoDup [0; 1; 3]
  /\ Forall (fun i => 0 <= i <= Z.log2 11) [0; 1; 3].
Proof.
  apply (proj2 bitmask2set_order 11). reflexivity.
Defined.

(** ** discover_plugins: nothing lost, nothing moved twice *)

Section PluginPermutation.
Context {PluginClass : Type}.
Implicit Types (l : list (str * PluginClass)).

Lemma partition_Permutation l :
  Permutation (filter accelerator l ++ filter intrinsic l) l.
Proof.
  induction l as [|x l IH]; [constructor|].
  cbn [filter]. replace (accelerator x) with (negb (intrinsic x)) by reflexivity.
  destruct (intrinsic x); cbn [negb].
  - apply Permutation_sym, Permutation_cons_app, Permutation_sym, IH.
  - cbn [app]. constructor. exact IH.
Qed.

Lemma filter_all {A : Type} (f : A -> bool) (l : list A) :
  forallb f l = true -> filter f l = l.
Proof.
  induction l as [|x l IH]; [reflexivity|].
  cbn [forallb filter]. intros H. apply andb_true_iff in H. destruct H as [Hx Hl].
  rewrite Hx, (IH Hl). reflexivity.
Qed.

Lemma filter_none {A : Type} (f : A -> bool) (l : list A) :
  forallb (fun x => negb (f x)) l = true -> filter f l = [].
Proof.
  induction l as [|x l IH]; [reflexivity|].
  cbn [forallb filter]. intros H. apply andb_true_iff in H. destruct H as [Hx Hl].
  apply negb_true_iff in Hx. rewrite Hx. apply IH. exact Hl.
Qed.

Lemma forallb_pointwise {A : Type} (f g : A -> bool) (l : list A) :
  (forall x, f x = g x) -> forallb f l = forallb g l.
Proof.
  intros H. induction l as [|x l IH]; [reflexivity|].
  cbn [forallb]. rewrite H, IH. reflexivity.
Qed.

Lemma ordered_fixed l1 l2 :
  forallb accelerator l1 = true ->
  forallb intrinsic l2 = true ->
  discover_plugins (l1 ++ l2) = l1 ++ l2.
Proof.
  intros H1 H2. unfold discover_plugins. rewrite list_sort_partition.
  rewrite !filter_app.
  rewrite (filter_all _ _ H1), (filter_all _ _ H2).
  rewrite (filter_none intrinsic l1) by exact H1.
  assert (H2' : forallb (fun x => negb (accelerator x)) l2 = true).
  { rewrite <- H2. apply forallb_pointwise. intros x. unfold accelerator.
    apply negb_involutive. }
  rewrite (filter_none accelerator l2 H2'). rewrite app_nil_r. reflexivity.
Qed.
End PluginPermutation.

(** X6. [discover_plugins] yields every discovered pair exactly once (the
    result is a permutation of the discovery), leaves a discovery that
    already has its [cpu] and [mem] pairs last as it is, and so yields the
    same order when applied to its own result. *)
Theorem discover_plugins_permutation :
  forall (PluginClass : Type) (scanned : list (str * PluginClass)),
    Permutation (discover_plugins scanned) scanned
    /\ (forall l1 l2, scanned = l1 ++ l2 ->
                      forallb accelerator l1 = true ->
                      forallb intrinsic l2 = true ->
                      discover_plugins scanned = scanned)
    /\ discover_plugins (discover_plugins scanned) = discover_plugins scanned.
Proof.
  intros P scanned. split; [|split].
  - unfold discover_plugins. rewrite list_sort_partition.
    apply partition_Permutation.
  - intros l1 l2 -> H1 H2. apply ordered_fixed; assumption.
  - unfold discover_plugins at 2 3. rewrite list_sort_partition.
    apply ordered_fixed; apply forallb_filter_self.
Qed.

(** The witness takes a discovery with its intrinsic pairs already last. *)
Lemma discover_plugins_permutation_witness :
  discover_plugins [(!"gpu", 1); (!"fpga", 3); (!"mem", 4); (!"cpu", 2)]
  = [(!"gpu", 1); (!"fpga", 3); (!"mem", 4); (!"cpu", 2)].
Proof.
  apply (proj1 (proj2 (discover_plugins_permutation Z
                         [(!"gpu", 1); (!"fpga", 3); (!"mem", 4); (!"cpu", 2)]))
           [(!"gpu", 1); (!"fpga", 3)] [(!"mem", 4); (!"cpu", 2)]);
    reflexivity.
Defined.

(** ** write_to_string: when it succeeds and what it writes *)

Section WriteSuccess.
Context {L : Library}.

Lemma write_slots_prefix kst dev (sl : dict (dict Decimal)) :
  forall acc text,
    write_slots kst dev sl acc = Ok text ->
    Forall (fun sp => family_prefix_ok dev (fst sp) = true) sl.
Proof.
  induction sl as [|[slot pda] sl IH]; intros acc text H; [constructor|].
  cbn [write_slots] in H.
  destruct (family_prefix_ok dev slot) eqn:Hok; cbn [negb] in H;
    [|discriminate H].
  constructor; [exact Hok|]. exact (IH _ _ H).
Qed.

Lemma write_allocations_prefix kst (allocs : dict (dict (dict Decimal))) :
  forall acc text,
    write_allocations kst allocs acc = Ok text ->
    Forall (fun dsl =>
              Forall (fun sp => family_prefix_ok (fst dsl) (fst sp) = true)
                     (snd dsl)) allocs.
Proof.
  induction allocs as [|[dev sl] allocs IH]; intros acc text H; [constructor|].
  cbn [write_allocations] in H.
  destruct (write_slots kst dev sl acc) as [acc'|e] eqn:Hs; [|discriminate H].
  cbn [bind] in H. constructor.
  - exact (write_slots_prefix _ _ _ _ _ Hs).
  - exact (IH _ _ H).
Qed.

(** X7. [write_to_string] returns a text exactly when every slot name of the
    allocations carries its family prefix, and the text is then the four
    lines CID, SCRATCH_SIZE, MOUNTS and SLOTS, in this order, followed by one
    [_SHARES] line per slot in the order of the allocations. *)
Theorem write_to_string_success kst (r : KernelResourceSpec) (text : str) :
  write_to_string kst r = Ok text
  <-> ((forall dev sl slot pda,
           In (dev, sl) (allocations r) -> In (slot, pda) sl ->
           family_prefix_ok dev slot = true)
       /\ text = concat (map render (header_kvs r
                                       ++ shares_kvs kst (allocations r)))).
Proof.
  assert (Htext : Forall (fun dsl =>
                     Forall (fun sp => family_prefix_ok (fst dsl) (fst sp) = true)
                            (snd dsl)) (allocations r) ->
                  write_to_string kst r
                  = Ok (concat (map render (header_kvs r
                                              ++ shares_kvs kst (allocations r))))).
  { intros Hall. unfold write_to_string.
    rewrite (write_allocations_text _ _ Hall), header_render, map_app, concat_app.
    reflexivity. }
  split.
  - intros H. pose proof (write_allocations_prefix _ _ _ _ H) as Hall.
    split.
    + intros dev sl slot pda Hd Hs.
      rewrite Forall_forall in Hall. specialize (Hall _ Hd). cbn [fst snd] in Hall.
      rewrite Forall_forall in Hall. exact (Hall _ Hs).
    + rewrite (Htext Hall) in H. inversion H. reflexivity.
  - intros (Hall & ->). apply Htext.
    apply Forall_forall. intros [dev sl] Hd. cbn [fst snd].
    apply Forall_forall. intros [slot pda] Hs. exact (Hall _ _ _ _ Hd Hs).
Qed.
End WriteSuccess.

(** The witness writes a record with one slot. *)
Lemma write_to_string_success_witness :
  write_to_string [] upper_case_spec = Ok !"CID=abc
SCRATCH_SIZE=0m
MOUNTS=
SLOTS={}
CUDA_SHARES=0:1
".
Proof.
  apply (proj2 (write_to_string_success (L := model) [] upper_case_spec _)).
  split.
  - intros dev sl slot pda [E|[]] Hs. inversion E; subst.
    destruct Hs as [E'|[]]. inversion E'; subst. reflexivity.
  - reflexivity.
Defined.

(** ** read_from_string: lines *)

Lemma split_join_lines (lines : list str) :
  lines <> [] ->
  Forall (fun l => contains NL l = false) lines ->
  split NL (join [NL] lines) = lines.
Proof. apply split_join. Qed.

Lemma parse_kvpairs_lines (lines : list str) :
  Forall (fun l => contains NL l = false) lines ->
  parse_kvpairs (join [NL] lines) = fold_left parse_line lines [].
Proof.
  intros Hall. unfold parse_kvpairs. destruct lines as [|l lines].
  - reflexivity.
  - rewrite split_join_lines; [reflexivity|discriminate|exact Hall].
Qed.

Lemma dict_get_set_same {V : Type} (d : dict V) (k : str) (v : V) :
  dict_get k (dict_set d k v) = Some v.
Proof.
  induction d as [|[k0 v0] d IH]; cbn [dict_set dict_get].
  - rewrite str_eqb_refl. reflexivity.
  - destruct (str_eqb k k0) eqn:E; cbn [dict_get]; rewrite E;
      [reflexivity|exact IH].
Qed.

Lemma Forall_remove_middle {A : Type} (P : A -> Prop) (l1 l2 : list A) (x : A) :
  Forall P (l1 ++ x :: l2) -> Forall P (l1 ++ l2).
Proof.
  intros H. apply Forall_app in H. destruct H as [H1 H2].
  inversion H2; subst. apply Forall_app. auto.
Qed.

(** X8. [read_from_string] skips every line without [=]: inserting such a
    line anywhere in a text changes neither the record nor the exception.
    A key given on the last line of a text overrides every earlier line with
    that key. *)
Theorem read_from_string_lines {L : Library} (kst : dict str) :
  (forall l1 l2 junk,
      Forall (fun l => contains NL l = false) (l1 ++ junk :: l2) ->
      contains "=" junk = false ->
      read_from_string kst (join [NL] (l1 ++ junk :: l2))
      = read_from_string kst (join [NL] (l1 ++ l2)))
  /\ (forall lines key val,
         Forall (fun l => contains NL l = false) lines ->
         line_ok (key, val) ->
         dict_get key (parse_kvpairs
                         (join [NL] (lines ++ [key ++ !"=" ++ val])))
         = Some val).
Proof.
  split.
  - intros l1 l2 junk Hall Hj.
    unfold read_from_string, read_from_string_log.
    rewrite (parse_kvpairs_lines _ Hall).
    rewrite (parse_kvpairs_lines _ (Forall_remove_middle _ _ _ _ Hall)).
    rewrite !fold_left_app. cbn [fold_left].
    unfold parse_line at 2. rewrite Hj. reflexivity.
  - intros lines key val Hall Hok.
    assert (Hall' : Forall (fun l => contains NL l = false)
                           (lines ++ [key ++ !"=" ++ val])).
    { apply Forall_app. split; [exact Hall|]. constructor; [|constructor].
      destruct Hok as (_ & _ & _ & Hk & Hv & _). cbn [fst snd] in *.
      rewrite contains_app, contains_app, Hk, Hv. reflexivity. }
    rewrite (parse_kvpairs_lines _ Hall'), fold_left_app. cbn [fold_left].
    change (key ++ !"=" ++ val) with (fst (key, val) ++ "="%char :: snd (key, val)).
    rewrite (parse_line_render _ _ Hok). apply dict_get_set_same.
Qed.

(** The witness overrides the container id on the last line. *)
Lemma read_from_string_lines_witness :
  dict_get !"CID" (parse_kvpairs
                     (join [NL] ([!"CID=first"; !"no assignment here"]
                                   ++ [!"CID" ++ !"=" ++ !"second"])))
  = Some !"second".
Proof.
  apply (proj2 (read_from_string_lines (L := model) [])).
  - repeat constructor.
  - unfold line_ok, clean. cbn [fst snd].
    repeat split; try reflexivity. discriminate.
Defined.

(** ** read_from_string: the allocations are a well-formed nested dict *)






Section ReadWellFormed.
Context {L : Library}.






End ReadWellFormed.


(** ** read_from_string: entries of a [_SHARES] value *)

Section ReadEntries.
Context {L : Library}.

Lemma parse_entries_filter kst slot entries :
  forall acc log,
    parse_entries kst slot entries acc log
    = parse_entries kst slot (filter entry_complete entries) acc log.
Proof.
  induction entries as [|entry entries IH]; intros acc log; [reflexivity|].
  destruct (partition ":" entry) as [[d f] a] eqn:Hp.
  assert (Hc : entry_complete entry
               = negb (str_eqb d []) && negb (str_eqb a [])).
  { unfold entry_complete. rewrite Hp. reflexivity. }
  cbn [filter parse_entries]. rewrite Hc, Hp.
  destruct d as [|c d]; [apply IH|].
  destruct a as [|c' a]; [apply IH|].
  change (negb (str_eqb (c :: d) []) && negb (str_eqb (c' :: a) [])) with true.
  cbn [parse_entries]. rewrite Hp.
  destruct (if is_bytes kst slot
            then BinarySize_from_str (c' :: a)
            else Decimal_of_str (c' :: a)) as [alloc|e].
  - apply IH.
  - destruct e; try reflexivity. apply IH.
Qed.

Lemma filter_no_comma (pieces : list str) :
  Forall (fun p => contains "," p = false) pieces ->
  Forall (fun p => contains "," p = false) (filter entry_complete pieces).
Proof.
  intros H. apply Forall_forall. intros p Hp. apply filter_In in Hp.
  rewrite Forall_forall in H. apply H, Hp.
Qed.

Lemma split_join_comma (pieces : list str) :
  Forall (fun p => contains "," p = false) pieces ->
  split "," (join !"," pieces) = match pieces with [] => [[]] | _ => pieces end.
Proof.
  intros H. destruct pieces as [|p pieces]; [reflexivity|].
  change !"," with [","%char]. apply split_join; [discriminate|exact H].
Qed.

(** X10. Entries of a [_SHARES] value that lack a device id or an amount
    (empty entries, entries without a colon, entries that start or end with
    the colon) are skipped: the value reads as the value without them. *)
Theorem read_entries_skip_incomplete kst slot (pieces : list str) log :
  Forall (fun p => contains "," p = false) pieces ->
  parse_entries kst slot (split "," (join !"," pieces)) [] log
  = parse_entries kst slot
      (split "," (join !"," (filter entry_complete pieces))) [] log.
Proof.
  intros H.
  rewrite (split_join_comma _ H), (split_join_comma _ (filter_no_comma _ H)).
  assert (Hnil : forall l : list str,
             parse_entries kst slot (match l with [] => [[]] | _ => l end) [] log
             = parse_entries kst slot l [] log).
  { intros [|x l]; reflexivity. }
  rewrite !Hnil. apply parse_entries_filter.
Qed.

Lemma parse_entries_log kst slot entries :
  no_KeyError ->
  forall acc log res,
    parse_entries kst slot entries acc log = Ok res -> snd res = log.
Proof.
  intros Hno. induction entries as [|entry entries IH]; intros acc log res;
    cbn [parse_entries].
  - intros H. inversion H. reflexivity.
  - destruct (partition ":" entry) as [[d f] a].
    destruct d as [|c d]; [apply IH|].
    destruct a as [|c' a]; [apply IH|].
    destruct (is_bytes kst slot).
    + destruct (BinarySize_from_str (c' :: a)) as [alloc|e] eqn:E; [apply IH|].
      destruct e; try discriminate.
      destruct (Hno (c' :: a) key) as [_ H2]. contradiction.
    + destruct (Decimal_of_str (c' :: a)) as [alloc|e] eqn:E; [apply IH|].
      destruct e; try discriminate.
      destruct (Hno (c' :: a) key) as [H2 _]. contradiction.
Qed.

Lemma parse_allocations_log kst items :
  no_KeyError ->
  forall allocs log res,
    parse_allocations kst items allocs log = Ok res -> snd res = log.
Proof.
  intros Hno. induction items as [|[key val] items IH]; intros allocs log res;
    cbn [parse_allocations].
  - intros H. inversion H. reflexivity.
  - destruct (endswith key !"_SHARES"); [|apply IH].
    destruct (parse_entries kst (lower (drop_last 7 key)) (split "," val) [] log)
      as [pr|e] eqn:Hp; [|discriminate].
    cbn [bind]. intros H. apply IH in H. rewrite H.
    apply (parse_entries_log _ _ _ Hno _ _ _ Hp).
Qed.

Lemma read_from_string_log_empty kst (text : str) r log :
  no_KeyError ->
  read_from_string_log kst text = Ok (r, log) ->
  log = [].
Proof.
  intros Hno Hr.
  unfold read_from_string_log, read_from_kvpairs in Hr.
  destruct (parse_allocations kst (parse_kvpairs text) [] []) as [al|e] eqn:Hal;
    cbn [bind] in Hr; [|discriminate].
  destruct (dict_item (parse_kvpairs text) !"MOUNTS") as [rm|];
    cbn [bind] in Hr; [|discriminate].
  destruct (parse_mounts (split "," rm)); cbn [bind] in Hr; [|discriminate].
  destruct (dict_item (parse_kvpairs text) !"SCRATCH_SIZE") as [rs|];
    cbn [bind] in Hr; [|discriminate].
  destruct (BinarySize_finite_from_str rs); cbn [bind] in Hr; [|discriminate].
  destruct (dict_item (parse_kvpairs text) !"SLOTS") as [rj|];
    cbn [bind] in Hr; [|discriminate].
  destruct (json_loads rj); cbn [bind] in Hr; [|discriminate].
  inversion Hr. apply (parse_allocations_log _ _ Hno _ _ _ Hal).
Qed.

Lemma parse_entries_unregistered kst slot (d a : str) acc log :
  no_KeyError ->
  dict_get slot kst = None ->
  d <> [] -> contains ":" d = false -> a <> [] ->
  parse_entries kst slot [d ++ !":" ++ a] acc log
  = (v <- Decimal_of_str a ;; Ok (dict_set acc d v, log)).
Proof.
  intros Hno Hg Hd Hc Ha. cbn [parse_entries].
  change (d ++ !":" ++ a) with (d ++ ":"%char :: a).
  rewrite (partition_app_sep _ _ _ Hc).
  destruct d as [|c d]; [congruence|].
  destruct a as [|c' a]; [congruence|].
  unfold is_bytes. rewrite Hg.
  change (str_eqb !"count" !"bytes") with false. cbn iota.
  destruct (Decimal_of_str (c' :: a)) as [v|e] eqn:E; [reflexivity|].
  destruct e; try reflexivity.
  destruct (Hno (c' :: a) key) as [H _]. contradiction.
Qed.

(** X11. When the parsers of the amounts never raise [KeyError],
    [read_from_string] never logs the unknown-slot-type warning, whatever the
    registry holds, and the loop over the entries reads an amount under a
    slot name missing from the registry with [Decimal()]: the entry is set
    when [Decimal()] returns and its exception is raised otherwise. *)
Theorem read_from_string_no_warning kst :
  no_KeyError ->
  (forall (text : str) r log,
      read_from_string_log kst text = Ok (r, log) -> log = [])
  /\ (forall slot d a acc log,
         dict_get slot kst = None ->
         d <> [] -> contains ":" d = false -> a <> [] ->
         parse_entries kst slot [d ++ !":" ++ a] acc log
         = (v <- Decimal_of_str a ;; Ok (dict_set acc d v, log))).
Proof.
  intros Hno. split.
  - intros text r log. apply read_from_string_log_empty. exact Hno.
  - intros slot d a acc log. apply parse_entries_unregistered. exact Hno.
Qed.
End ReadEntries.

Lemma Z_of_str_no_KeyError (s : str) (k : str) : Z_of_str s <> Raise (KeyError k).
Proof.
  unfold Z_of_str.
  destruct (NilEmpty.int_of_string (string_of_list_ascii s)) as [[[]|[]]|];
    discriminate.
Qed.

Lemma model_no_KeyError : no_KeyError (L := model).
Proof.
  intros s k. split; [apply Z_of_str_no_KeyError|].
  cbn [BinarySize_from_str model]. unfold model_from_str.
  destruct (rev s) as [|c r]; [discriminate|].
  destruct (suffix_lookup c suffixes) as [u|]; [|apply Z_of_str_no_KeyError].
  pose proof (Z_of_str_no_KeyError (rev r) k) as H.
  destruct (Z_of_str (rev r)) as [n|e]; cbn [bind]; [discriminate|exact H].
Qed.

(** The witness reads a value with empty and half-empty entries. *)
Lemma read_entries_skip_incomplete_witness :
  parse_entries [] !"cpu"
    (split "," (join !"," [!"0:1"; !""; !"junk"; !":5"; !"7:"; !"2:3"])) [] []
  = parse_entries [] !"cpu"
      (split "," (join !"," (filter entry_complete
                               [!"0:1"; !""; !"junk"; !":5"; !"7:"; !"2:3"])))
      [] [].
Proof.
  apply (read_entries_skip_incomplete (L := model)).
  repeat constructor.
Defined.

(** The witness reads the slot name [tpu], which is not in the registry. *)
Lemma read_from_string_no_warning_witness :
  (forall text r log,
      read_from_string_log [(!"cpu", !"count")] text = Ok (r, log) ->
      log = [])
  /\ parse_entries [(!"cpu", !"count")] !"tpu" [!"0" ++ !":" ++ !"2"] [] []
     = (v <- Decimal_of_str !"2" ;; Ok (dict_set [] !"0" v, [])).
Proof.
  destruct (read_from_string_no_warning (L := model) [(!"cpu", !"count")]
              model_no_KeyError) as [H1 H2].
  split; [exact H1|].
  apply H2; try reflexivity; discriminate.
Defined.

(** ** read_from_string: which exception *)

(** X12. When the allocation lines parse, a missing mandatory key is
    reported as the [KeyError] of that key, looked up in the order MOUNTS,
    SCRATCH_SIZE, SLOTS: MOUNTS when it is missing; SCRATCH_SIZE when MOUNTS
    is there and its mounts parse; SLOTS when the scratch size parses too. *)
Theorem read_from_string_KeyError {L : Library} (kst : dict str) (text : str) al :
  parse_allocations kst (parse_kvpairs text) [] [] = Ok al ->
  (dict_get !"MOUNTS" (parse_kvpairs text) = None ->
   read_from_string kst text = Raise (KeyError !"MOUNTS"))
  /\ (forall raw_mounts ms,
         dict_get !"MOUNTS" (parse_kvpairs text) = Some raw_mounts ->
         parse_mounts (split "," raw_mounts) = Ok ms ->
         (dict_get !"SCRATCH_SIZE" (parse_kvpairs text) = None ->
          read_from_string kst text = Raise (KeyError !"SCRATCH_SIZE"))
         /\ (forall raw_size size,
                dict_get !"SCRATCH_SIZE" (parse_kvpairs text) = Some raw_size ->
                BinarySize_finite_from_str raw_size = Ok size ->
                dict_get !"SLOTS" (parse_kvpairs text) = None ->
                read_from_string kst text = Raise (KeyError !"SLOTS"))).
Proof.
  intros Hal.
  unfold read_from_string, read_from_string_log, read_from_kvpairs, dict_item.
  rewrite Hal. cbn [bind]. split.
  - intros Hm. rewrite Hm. reflexivity.
  - intros rm ms Hm Hms. rewrite Hm. cbn [bind]. rewrite Hms. cbn [bind]. split.
    + intros Hs. rewrite Hs. reflexivity.
    + intros rs size Hs Hsz Hj. rewrite Hs. cbn [bind]. rewrite Hsz. cbn [bind].
      rewrite Hj. reflexivity.
Qed.

(** The witness reads a text with nothing but a container id. *)
Lemma read_from_string_KeyError_witness :
  read_from_string [] !"CID=abc" = Raise (KeyError !"MOUNTS").
Proof.
  apply (proj1 (read_from_string_KeyError (L := model) [] !"CID=abc" ([], [])
                  eq_refl)).
  reflexivity.
Defined.

(** ** attach_intrinsic_device *)

Lemma dict_get_set_other {V : Type} (d : dict V) (k k' : str) (v : V) :
  k' <> k -> dict_get k' (dict_set d k v) = dict_get k' d.
Proof.
  intros Hne. induction d as [|[k0 v0] d IH]; cbn [dict_set dict_get].
  - apply str_eqb_neq in Hne. rewrite Hne. reflexivity.
  - destruct (str_eqb k k0) eqn:E; cbn [dict_get].
    + apply str_eqb_eq in E. subst k0. apply str_eqb_neq in Hne.
      rewrite Hne. reflexivity.
    + rewrite IH. reflexivity.
Qed.

Lemma dict_set_keys_present {V : Type} (d : dict V) (k : str) (v : V) :
  In k (keys d) -> keys (dict_set d k v) = keys d.
Proof.
  induction d as [|[k0 v0] d IH]; [intros []|].
  cbn [dict_set]. destruct (str_eqb k k0) eqn:E; [reflexivity|].
  cbn [keys map fst]. intros [->|Hin].
  - rewrite str_eqb_refl in E. discriminate E.
  - f_equal. apply IH. exact Hin.
Qed.

(** X13. After [attach_intrinsic_device], the context returns the attached
    plugin under its key and every other key is as before; when the key was
    already taken the earlier plugin is replaced and the order of the keys is
    unchanged, otherwise the key comes last. *)
Theorem attach_intrinsic_device_lookup :
  forall (Plugin : Type) (key : Plugin -> str) (plugins : dict Plugin)
         (plugin : Plugin),
    dict_get (key plugin) (attach_intrinsic_device key plugins plugin)
    = Some plugin
    /\ (forall k, k <> key plugin ->
                  dict_get k (attach_intrinsic_device key plugins plugin)
                  = dict_get k plugins)
    /\ (In (key plugin) (keys plugins) ->
        keys (attach_intrinsic_device key plugins plugin) = keys plugins)
    /\ (~ In (key plugin) (keys plugins) ->
        attach_intrinsic_device key plugins plugin
        = plugins ++ [(key plugin, plugin)]).
Proof.
  intros Plugin key plugins plugin. unfold attach_intrinsic_device.
  split; [apply dict_get_set_same|].
  split; [intros k Hk; apply dict_get_set_other; exact Hk|].
  split; [apply dict_set_keys_present|apply dict_set_new].
Qed.

(** The witness attaches a second plugin under the key [cpu]. *)
Lemma attach_intrinsic_device_lookup_witness :
  keys (attach_intrinsic_device (fun p : str * Z => fst p)
                                [(!"cpu", (!"cpu", 1)); (!"mem", (!"mem", 2))]
                                (!"cpu", 3))
  = [!"cpu"; !"mem"].
Proof.
  apply (proj1 (proj2 (proj2 (attach_intrinsic_device_lookup
                                (str * Z) (fun p => fst p)
                                [(!"cpu", (!"cpu", 1)); (!"mem", (!"mem", 2))]
                                (!"cpu", 3))))).
  left. reflexivity.
Defined.

(** ** write_to_string: families without slots *)

Lemma write_allocations_has_slots {L : Library} kst
      (allocs : dict (dict (dict Decimal))) :
  forall acc,
    write_allocations kst allocs acc
    = write_allocations kst (filter has_slots allocs) acc.
Proof.
  induction allocs as [|[dev sl] allocs IH]; intros acc; [reflexivity|].
  cbn [filter]. unfold has_slots at 1. cbn [snd].
  destruct sl as [|sp sl].
  - cbn [write_allocations write_slots bind]. apply IH.
  - cbn [write_allocations].
    destruct (write_slots kst dev (sp :: sl) acc) as [acc'|e]; cbn [bind];
      [apply IH|reflexivity].
Qed.

(** X14. A device family without slots leaves no trace in the text:
    [write_to_string] gives the same result, text or exception, for a record
    and for the record without its empty families. *)
Theorem write_to_string_empty_family {L : Library} kst (r : KernelResourceSpec) :
  write_to_string kst r
  = write_to_string kst
      (mkSpec (container_id r) (slots r) (filter has_slots (allocations r))
              (scratch_disk_size r) (mounts r)).
Proof.
  unfold write_to_string. cbn [allocations].
  rewrite write_allocations_has_slots. reflexivity.
Qed.

(** ** Slot names through write_to_string and read_from_string *)












Section SlotNames.
Context {L : Library}.





End SlotNames.


